(** * file_flows.core.FileOps: path-based dispatch between the local file
      system and an S3 object store

    The development embeds [file_flows/core.py].  The class [FileOps] is a
    thin dispatcher: every public method asks the lazily built [S3Ops]
    handle whether a path is an S3 path and forwards the call either to the
    handle or to the Python standard library ([pathlib], [os.path],
    [shutil]) and to [polars] / [pyarrow].

    - Section "Python run-time": exceptions, outcomes, and a model of the
      part of [pathlib] / [os] / [shutil] that [core.py] calls.  The model
      has directories and regular files only (no symbolic links, no
      permissions), a path component [..] is an ordinary name, and a
      trailing [/] is significant only for the [os]-level calls that
      receive the caller's raw string.
    - Class [Env]: the collaborators that [core.py] imports but does not
      define ([S3Ops] from [file_flows/s3.py], [polars], [pyarrow]).
    - Module [FileOps]: the methods of [core.py], one definition each.
    - Module [SpecS3]: an object store written after the prose
      specification, used where a statement needs the behaviour of the
      remote side. *)

From Stdlib Require Import Ascii String List Bool Arith Lia.
From stdpp Require Import base option list gmap strings fin_maps.

Open Scope string_scope.
Open Scope list_scope.

(** ** Python run-time *)

(** Exceptions that reach a caller of [FileOps].  The first group are
    Python built-ins raised by the standard library, the second group is
    the error taxonomy of the object-store collaborator. *)
Inductive Exn : Type :=
  | FileNotFoundError
  | FileExistsError
  | IsADirectoryError
  | NotADirectoryError
  | SameFileError
  | ValueError
  | IndexError
  | NotImplementedError
  | InvalidLocationError
  | NotFoundError
  | BackendError (msg : string).

Inductive Outcome (A : Type) : Type :=
  | Return (a : A)
  | Raise (e : Exn).
Arguments Return {A} a.
Arguments Raise {A} e.

(** [except FileNotFoundError] matches exactly this built-in (it has no
    subclass among the exceptions above). *)
Definition is_FileNotFoundError (e : Exn) : bool :=
  match e with FileNotFoundError => true | _ => false end.


Module Py.

(** *** Pure paths *)

Definition slash : ascii := "/"%char.

Fixpoint split_on (sep : ascii) (s : string) : list string :=
  match s with
  | EmptyString => [EmptyString]
  | String c s' =>
      if Ascii.eqb c sep then EmptyString :: split_on sep s'
      else match split_on sep s' with
           | [] => [String c EmptyString]
           | w :: ws => String c w :: ws
           end
  end.

Definition starts_with_slash (s : string) : bool :=
  match s with String c _ => Ascii.eqb c slash | EmptyString => false end.

Fixpoint ends_with_slash (s : string) : bool :=
  match s with
  | EmptyString => false
  | String c EmptyString => Ascii.eqb c slash
  | String _ s' => ends_with_slash s'
  end.

Definition real_name (n : string) : bool :=
  negb (String.eqb n "") && negb (String.eqb n ".").

(** [pathlib.PurePosixPath]: whether the path has a root, and its
    components with empty and [.] components dropped. *)
Record PurePath : Type := mkPath { anchored : bool; names : list string }.

Definition Path (s : string) : PurePath :=
  {| anchored := starts_with_slash s;
     names := List.filter real_name (split_on slash s) |}.

(** [p / n] *)
Definition joinpath (p : PurePath) (suffix : list string) : PurePath :=
  {| anchored := anchored p; names := names p ++ suffix |}.

(** *** The local file system *)

Inductive Node : Type :=
  | File (data : list Byte.byte)
  | Dir.

(** [nodes] maps the absolute component list of every entry below the
    root to its node; the root itself is always a directory.  [cwd] is
    the working directory against which relative paths resolve and
    [dir_size] is the [st_size] the operating system reports for a
    directory. *)
Record LocalFS : Type := mkFS {
  nodes : gmap (list string) Node;
  cwd : list string;
  dir_size : nat
}.

Definition with_nodes (f : gmap (list string) Node -> gmap (list string) Node)
    (fs : LocalFS) : LocalFS :=
  {| nodes := f (nodes fs); cwd := cwd fs; dir_size := dir_size fs |}.

Definition locate (fs : LocalFS) (p : PurePath) : list string :=
  if anchored p then names p else cwd fs ++ names p.

Definition look (fs : LocalFS) (p : list string) : option Node :=
  match p with
  | [] => Some Dir
  | _ => nodes fs !! p
  end.

(** Path resolution walks the ancestors of [pre ++ rest]: each must be a
    directory.  A missing ancestor is ENOENT, a regular file ENOTDIR. *)
Fixpoint check_dirs (fs : LocalFS) (pre rest : list string) : option Exn :=
  match rest with
  | [] => None
  | c :: rest' =>
      match look fs pre with
      | None => Some FileNotFoundError
      | Some (File _) => Some NotADirectoryError
      | Some Dir => check_dirs fs (pre ++ [c]) rest'
      end
  end.

(** [os.stat] on a resolved component list. *)
Definition stat (fs : LocalFS) (p : list string) : Outcome Node :=
  match check_dirs fs [] p with
  | Some e => Raise e
  | None =>
      match look fs p with
      | None => Raise FileNotFoundError
      | Some n => Return n
      end
  end.

(** [os.stat] on the caller's raw string: the empty string is ENOENT and
    a trailing slash demands a directory. *)
Definition os_stat (fs : LocalFS) (s : string) : Outcome Node :=
  if String.eqb s "" then Raise FileNotFoundError
  else match stat fs (locate fs (Path s)) with
       | Return (File d) =>
           if ends_with_slash s then Raise NotADirectoryError
           else Return (File d)
       | r => r
       end.

Definition is_dir (fs : LocalFS) (p : list string) : bool :=
  match stat fs p with Return Dir => true | _ => false end.

(** [Path.exists()]: ENOENT and ENOTDIR are answered with [False]. *)
Definition path_exists (fs : LocalFS) (p : list string) : bool :=
  match stat fs p with Return _ => true | Raise _ => false end.

(** [os.mkdir] *)
Definition os_mkdir (p : list string) (fs : LocalFS) : Outcome unit * LocalFS :=
  match check_dirs fs [] p with
  | Some e => (Raise e, fs)
  | None =>
      match look fs p with
      | Some _ => (Raise FileExistsError, fs)
      | None => (Return tt, with_nodes (insert p Dir) fs)
      end
  end.

(** [os.mkdir(p)] for a path object: a path without components is [.]
    or [/], which exists already or, for a working directory that is
    gone, cannot be resolved. *)
Definition os_mkdir_path (p : PurePath) (fs : LocalFS) : Outcome unit * LocalFS :=
  match names p with
  | [] =>
      (Raise (if is_dir fs (locate fs p) then FileExistsError
              else FileNotFoundError), fs)
  | _ => os_mkdir (locate fs p) fs
  end.

(** [Path.mkdir(parents=False, exist_ok=exist_ok)]: ENOENT propagates,
    any other [OSError] is swallowed when [exist_ok] holds and the path is
    a directory. *)
Definition mkdir_leaf (exist_ok : bool) (p : PurePath) (fs : LocalFS)
    : Outcome unit * LocalFS :=
  match os_mkdir_path p fs with
  | (Return tt, fs') => (Return tt, fs')
  | (Raise FileNotFoundError, _) => (Raise FileNotFoundError, fs)
  | (Raise e, _) =>
      if exist_ok && is_dir fs (locate fs p) then (Return tt, fs)
      else (Raise e, fs)
  end.

(** [Path.mkdir(parents=True, exist_ok=exist_ok)] on the path whose
    components, last first, are [rnames]: on ENOENT the parent is made
    with [parents=True, exist_ok=True] and the path itself is retried
    without [parents]; the recursion stops where [self.parent == self]. *)
Fixpoint mkdir_parents (exist_ok : bool) (anch : bool) (rnames : list string)
    (fs : LocalFS) : Outcome unit * LocalFS :=
  let p := mkPath anch (rev rnames) in
  match os_mkdir_path p fs with
  | (Return tt, fs') => (Return tt, fs')
  | (Raise FileNotFoundError, _) =>
      match rnames with
      | [] => (Raise FileNotFoundError, fs)
      | _ :: rparent =>
          match mkdir_parents true anch rparent fs with
          | (Raise e, fs1) => (Raise e, fs1)
          | (Return tt, fs1) => mkdir_leaf exist_ok p fs1
          end
      end
  | (Raise e, _) =>
      if exist_ok && is_dir fs (locate fs p) then (Return tt, fs)
      else (Raise e, fs)
  end.

Definition Path_mkdir (parents exist_ok : bool) (p : PurePath) (fs : LocalFS)
    : Outcome unit * LocalFS :=
  if parents then mkdir_parents exist_ok (anchored p) (rev (names p)) fs
  else mkdir_leaf exist_ok p fs.

(** [Path.unlink()] *)
Definition Path_unlink (p : PurePath) (fs : LocalFS) : Outcome unit * LocalFS :=
  let q := locate fs p in
  match stat fs q with
  | Raise e => (Raise e, fs)
  | Return Dir => (Raise IsADirectoryError, fs)
  | Return (File _) => (Return tt, with_nodes (base.delete q) fs)
  end.

Definition Path_exists (p : PurePath) (fs : LocalFS) : bool :=
  path_exists fs (locate fs p).

(** [os.path.getsize] *)
Definition os_path_getsize (s : string) (fs : LocalFS) : Outcome nat :=
  match os_stat fs s with
  | Raise e => Raise e
  | Return (File d) => Return (length d)
  | Return Dir => Return (dir_size fs)
  end.

(** *** shutil.copy *)

Definition os_path_isdir (fs : LocalFS) (s : string) : bool :=
  match os_stat fs s with Return Dir => true | _ => false end.

(** [os.path.basename]: what follows the last slash. *)
Definition os_path_basename (s : string) : string :=
  List.last (split_on slash s) "".

(** [os.path.join dst b] for a [b] without slash. *)
Definition os_path_join (dst b : string) : string :=
  if String.eqb dst "" || ends_with_slash dst then (dst ++ b)%string
  else (dst ++ "/" ++ b)%string.

(** [os.path.samefile] as [shutil._samefile] uses it: an [OSError] from
    either [stat] answers [False]. *)
Definition samefile (fs : LocalFS) (a b : string) : bool :=
  match os_stat fs a, os_stat fs b with
  | Return _, Return _ =>
      bool_decide (locate fs (Path a) = locate fs (Path b))
  | _, _ => false
  end.

(** [open(s, 'rb').read()] *)
Definition open_rb (fs : LocalFS) (s : string) : Outcome (list Byte.byte) :=
  match os_stat fs s with
  | Raise e => Raise e
  | Return Dir => Raise IsADirectoryError
  | Return (File d) => Return d
  end.

(** [open(s, 'wb').write(data)]: creates or truncates a regular file. *)
Definition open_wb (s : string) (data : list Byte.byte) (fs : LocalFS)
    : Outcome unit * LocalFS :=
  if String.eqb s "" then (Raise FileNotFoundError, fs)
  else
    let q := locate fs (Path s) in
    match check_dirs fs [] q with
    | Some e => (Raise e, fs)
    | None =>
        match look fs q with
        | Some Dir => (Raise IsADirectoryError, fs)
        | Some (File _) =>
            if ends_with_slash s then (Raise NotADirectoryError, fs)
            else (Return tt, with_nodes (insert q (File data)) fs)
        | None =>
            if ends_with_slash s then (Raise IsADirectoryError, fs)
            else (Return tt, with_nodes (insert q (File data)) fs)
        end
    end.

(** [shutil.copy(src, dst)]; returns the path written. *)
Definition shutil_copy (src dst : string) (fs : LocalFS)
    : Outcome string * LocalFS :=
  let dst' :=
    if os_path_isdir fs dst then os_path_join dst (os_path_basename src)
    else dst in
  if samefile fs src dst' then (Raise SameFileError, fs)
  else
    match open_rb fs src with
    | Raise e => (Raise e, fs)
    | Return data =>
        match open_wb dst' data fs with
        | (Raise e, fs') => (Raise e, fs')
        | (Return tt, fs') => (Return dst', fs')
        end
    end.

(** *** Directory listing and globbing *)

Fixpoint drop_prefix (d q : list string) : option (list string) :=
  match d, q with
  | [], _ => Some q
  | x :: d', y :: q' => if String.eqb x y then drop_prefix d' q' else None
  | _ :: _, [] => None
  end.

Definition child_of (d q : list string) : option string :=
  match drop_prefix d q with
  | Some [n] => Some n
  | _ => None
  end.

(** The names [os.listdir] / [os.scandir] report for directory [d]. *)
Definition listdir_names (fs : LocalFS) (d : list string) : list string :=
  omap (child_of d) (map fst (map_to_list (nodes fs))).

(** [list(Path.iterdir())] *)
Definition Path_iterdir (p : PurePath) (fs : LocalFS) : Outcome (list PurePath) :=
  let d := locate fs p in
  match stat fs d with
  | Raise e => Raise e
  | Return (File _) => Raise NotADirectoryError
  | Return Dir => Return (map (fun n => joinpath p [n]) (listdir_names fs d))
  end.

(** One component of a glob pattern, as [pathlib._make_selector]
    classifies it. *)
Inductive Seg : Type :=
  | SegRecursive                 (* the component is exactly "**" *)
  | SegWildcard (pat : string)   (* it contains one of * ? [ *)
  | SegPrecise (name : string).

Definition has_substring (sub s : string) : bool :=
  match String.index 0 sub s with Some _ => true | None => false end.

Definition is_wildcard_pattern (pat : string) : bool :=
  has_substring "*" pat || has_substring "?" pat || has_substring "[" pat.

Definition make_seg (pat : string) : Outcome Seg :=
  if String.eqb pat "**" then Return SegRecursive
  else if has_substring "**" pat then Raise ValueError
  else if is_wildcard_pattern pat then Return (SegWildcard pat)
  else Return (SegPrecise pat).

Fixpoint make_selector (parts : list string) : Outcome (list Seg) :=
  match parts with
  | [] => Return []
  | pat :: rest =>
      match make_seg pat with
      | Raise e => Raise e
      | Return seg =>
          match make_selector rest with
          | Raise e => Raise e
          | Return segs => Return (seg :: segs)
          end
      end
  end.

(** The directories [_iterate_directories] visits from [base ++ suffix],
    as suffixes relative to [base]: the start and every directory below. *)
Definition iterate_directories (fs : LocalFS) (base suffix : list string)
    : list (list string) :=
  suffix ::
  omap (fun q =>
          match drop_prefix (base ++ suffix) q with
          | Some (n :: r) =>
              if is_dir fs q then Some (suffix ++ n :: r) else None
          | _ => None
          end)
       (map fst (map_to_list (nodes fs))).

(** [_select_from] of the selector chain [segs], started at
    [base ++ suffix]; yields suffixes relative to [base]. *)
Fixpoint select_from (fnmatch : string -> string -> bool) (fs : LocalFS)
    (base : list string) (segs : list Seg) (suffix : list string)
    : list (list string) :=
  match segs with
  | [] => [suffix]
  | seg :: rest =>
      let dironly := match rest with [] => false | _ => true end in
      match seg with
      | SegPrecise n =>
          let q := base ++ suffix ++ [n] in
          if (if dironly then is_dir fs q else path_exists fs q)
          then select_from fnmatch fs base rest (suffix ++ [n])
          else []
      | SegWildcard pat =>
          flat_map
            (fun n =>
               if (negb dironly || is_dir fs (base ++ suffix ++ [n]))
                  && fnmatch n pat
               then select_from fnmatch fs base rest (suffix ++ [n])
               else [])
            (listdir_names fs (base ++ suffix))
      | SegRecursive =>
          remove_dups
            (flat_map (select_from fnmatch fs base rest)
                      (iterate_directories fs base suffix))
      end
  end.

(** [list(Path.glob(pattern))] (CPython 3.8 - 3.11). *)
Definition Path_glob (fnmatch : string -> string -> bool) (p : PurePath)
    (pattern : string) (fs : LocalFS) : Outcome (list PurePath) :=
  if String.eqb pattern "" then Raise ValueError
  else if starts_with_slash pattern then Raise NotImplementedError
  else
    match names (Path pattern) with
    | [] => Raise IndexError
    | parts =>
        match make_selector parts with
        | Raise e => Raise e
        | Return segs =>
            let base := locate fs p in
            if is_dir fs base
            then Return (map (joinpath p) (select_from fnmatch fs base segs []))
            else Return []
        end
    end.

(** [fs'] keeps the working directory and every entry of [fs], and what
    it adds are directories. *)
Definition grown_by_dirs (fs fs' : LocalFS) : Prop :=
  cwd fs' = cwd fs /\ dir_size fs' = dir_size fs /\
  forall r, match nodes fs !! r with
            | Some v => nodes fs' !! r = Some v
            | None => nodes fs' !! r = None \/ nodes fs' !! r = Some Dir
            end.

(** A matcher for the witnesses below: [fnmatch.fnmatchcase] restricted
    to the metacharacters [*] and [?]. *)
Fixpoint fnmatchcase_pat (pat : list ascii) (name : list ascii) : bool :=
  match pat with
  | [] => match name with [] => true | _ => false end
  | c :: pat' =>
      if Ascii.eqb c "*"%char then
        (fix star (name : list ascii) : bool :=
           fnmatchcase_pat pat' name
           || match name with [] => false | _ :: name' => star name' end) name
      else
        match name with
        | [] => false
        | d :: name' =>
            (Ascii.eqb c "?"%char || Ascii.eqb c d) && fnmatchcase_pat pat' name'
        end
  end.

Definition fnmatchcase (name pat : string) : bool :=
  fnmatchcase_pat (list_ascii_of_string pat) (list_ascii_of_string name).

End Py.

Import Py.

(** ** Collaborators *)

(** A Python value passed as the [header] argument of [df_from_csv]. *)
Inductive PyValue : Type :=
  | PyNone
  | PyBool (b : bool)
  | PyInt (n : Z)
  | PyStr (s : string)
  | PyList (items : list string)
  | PyTuple (items : list string).

(** [dtypes: Dict[str, Any] = None] *)
Definition Dtypes : Type := option (list (string * string)).

(** What [core.py] imports and does not define.  The members up to
    [s3_df_from_parquet] are the methods of [S3Ops] ([file_flows/s3.py])
    that [FileOps] calls; [S3Cfg] is its configuration class.  The rest is
    [polars], [pyarrow.parquet] and the [fnmatch] matcher behind
    [Path.glob].  Every effectful member acts on the pair of the local
    file system and the object store. *)
Module Collab.

Class Env : Type := {
  S3Cfg : Type;
  Store : Type;
  DeleteResponse : Type;
  ArrowFS : Type;
  PolarsFrame : Type;
  PandasFrame : Type;
  is_s3_path : string -> bool;
  bucket_and_partition : string -> Outcome (string * string);
  get_bucket : string -> LocalFS * Store -> Outcome unit * (LocalFS * Store);
  transfer_s3_location :
    string -> string -> bool -> LocalFS * Store -> Outcome unit * (LocalFS * Store);
  download_file :
    string -> string -> bool -> LocalFS * Store -> Outcome unit * (LocalFS * Store);
  client_upload_file :
    string -> string -> string -> LocalFS * Store -> Outcome unit * (LocalFS * Store);
  delete_file :
    string -> bool -> LocalFS * Store -> Outcome DeleteResponse * (LocalFS * Store);
  s3_exists : string -> LocalFS * Store -> Outcome bool * (LocalFS * Store);
  s3_file_size : string -> LocalFS * Store -> Outcome nat * (LocalFS * Store);
  s3_list_files :
    string -> option string -> LocalFS * Store
    -> Outcome (list string) * (LocalFS * Store);
  arrow_fs : LocalFS * Store -> Outcome ArrowFS * (LocalFS * Store);
  s3_df_from_csv :
    string -> PyValue -> Dtypes -> string -> LocalFS * Store
    -> Outcome (PandasFrame + PolarsFrame) * (LocalFS * Store);
  s3_df_from_parquet :
    string -> string -> LocalFS * Store
    -> Outcome (PandasFrame + PolarsFrame) * (LocalFS * Store);
  fnmatch : string -> string -> bool;
  read_schema :
    string -> option ArrowFS -> LocalFS * Store
    -> Outcome (list string) * (LocalFS * Store);
  pl_read_csv :
    string -> Dtypes -> bool -> PyValue -> LocalFS * Store
    -> Outcome PolarsFrame * (LocalFS * Store);
  pl_read_parquet :
    string -> LocalFS * Store -> Outcome PolarsFrame * (LocalFS * Store);
  to_pandas : PolarsFrame -> PandasFrame
}.

End Collab.
Export Collab.

(** ** Instance state, events and the effect monad *)

Section Runtime.
Context `{E : Env}.

(** An [S3Ops] object: its identity and the configuration it was built
    from. *)
Record Handle : Type := mkHandle { obj_id : nat; handle_cfg : option S3Cfg }.

(** Modelled from the spec: [S3Ops.__init__] of [file_flows/s3.py],
    "a lazily-constructed ... handle to the remote-store client (created
    once, reused for all remote operations on this instance)": building
    the object returns, and the object keeps the configuration it was
    given.  [id] is the identity the run-time gives the new object. *)
Definition S3Ops (s3_cfg : option S3Cfg) (id : nat) : Handle :=
  {| obj_id := id; handle_cfg := s3_cfg |}.

(** The attributes of a [FileOps] object: [_s3_cfg] set by [__init__] and
    the slot that [cached_property] fills on the first access of [s3]. *)
Record Instance : Type := mkInstance {
  _s3_cfg : option S3Cfg;
  s3_cached : option Handle
}.

(** [FileOps.__init__] *)
Definition __init__ (s3_cfg : option S3Cfg) : Instance :=
  {| _s3_cfg := s3_cfg; s3_cached := None |}.

Record State : Type := mkState {
  local : LocalFS;
  store : Store;
  self : Instance;
  next_id : nat            (* identity of the next object allocated *)
}.

(** Calls made on an [S3Ops] handle. *)
Inductive S3Call : Type :=
  | c_is_s3_path (path : string)
  | c_bucket_and_partition (path : string)
  | c_get_bucket (bucket_name : string)
  | c_transfer_s3_location (src_path dst_path : string) (delete_src : bool)
  | c_download_file (s3_path local_path : string) (overwrite : bool)
  | c_client_upload_file (filename bucket key : string)
  | c_delete_file (file : string) (if_exists : bool)
  | c_exists (file : string)
  | c_file_size (file : string)
  | c_list_files (directory : string) (pattern : option string)
  | c_arrow_fs
  | c_df_from_csv (path : string) (header : PyValue) (dtypes : Dtypes)
                  (return_as : string)
  | c_df_from_parquet (path : string) (return_as : string).

(** Calls into the standard library, [polars] and [pyarrow]. *)
Inductive LibCall : Type :=
  | c_Path_mkdir (location : string) (exist_ok parents : bool)
  | c_shutil_copy (src dst : string)
  | c_Path_unlink (file : string)
  | c_Path_exists (file : string)
  | c_os_path_getsize (file : string)
  | c_Path_glob (directory pattern : string)
  | c_Path_iterdir (directory : string)
  | c_read_schema (file : string) (filesystem : option ArrowFS)
  | c_pl_read_csv (path : string) (dtypes : Dtypes) (has_header : bool)
                  (columns : PyValue)
  | c_pl_read_parquet (path : string)
  | c_to_pandas.

Inductive Event : Type :=
  | S3OpsInit (h : Handle)           (* [S3Ops(self._s3_cfg)] ran *)
  | OnS3 (h : Handle) (c : S3Call)   (* a method of handle [h] was called *)
  | OnLib (c : LibCall).

(** A computation reads and writes the state, returns or raises, and
    leaves the trace of the calls it made. *)
Definition M (A : Type) : Type := State -> Outcome A * State * list Event.

Definition ret {A} (a : A) : M A := fun st => (Return a, st, []).

Definition raise {A} (e : Exn) : M A := fun st => (Raise e, st, []).

Definition bind {A B} (m : M A) (k : A -> M B) : M B :=
  fun st =>
    match m st with
    | (Return a, st1, t1) =>
        match k a st1 with
        | (r, st2, t2) => (r, st2, t1 ++ t2)
        end
    | (Raise e, st1, t1) => (Raise e, st1, t1)
    end.

(** [try: m  except FileNotFoundError: handler] *)
Definition try_except_FileNotFoundError {A} (m : M A) (handler : M A) : M A :=
  fun st =>
    match m st with
    | (Raise e, st1, t1) =>
        if is_FileNotFoundError e then
          match handler st1 with
          | (r, st2, t2) => (r, st2, t1 ++ t2)
          end
        else (Raise e, st1, t1)
    | r => r
    end.

Definition with_world (w : LocalFS * Store) (st : State) : State :=
  {| local := fst w; store := snd w; self := self st; next_id := next_id st |}.

(** A call on the handle [h], run against the world. *)
Definition on_s3 {A} (h : Handle) (c : S3Call)
    (op : LocalFS * Store -> Outcome A * (LocalFS * Store)) : M A :=
  fun st =>
    match op (local st, store st) with
    | (r, w) => (r, with_world w st, [OnS3 h c])
    end.

Definition on_lib {A} (c : LibCall)
    (op : LocalFS * Store -> Outcome A * (LocalFS * Store)) : M A :=
  fun st =>
    match op (local st, store st) with
    | (r, w) => (r, with_world w st, [OnLib c])
    end.

(** Lifts of pure functions and of functions on the local file system. *)
Definition pure_op {A S} (r : Outcome A) : S -> Outcome A * S :=
  fun w => (r, w).

Definition local_op {A S} (op : LocalFS -> Outcome A * LocalFS)
    : LocalFS * S -> Outcome A * (LocalFS * S) :=
  fun w => match op (fst w) with (r, fs) => (r, (fs, snd w)) end.

Definition local_query {A S} (q : LocalFS -> Outcome A)
    : LocalFS * S -> Outcome A * (LocalFS * S) :=
  fun w => (q (fst w), w).

End Runtime.

Notation "'let*' x ':=' m 'in' k" := (bind m (fun x => k))
  (at level 10, x pattern, m at level 100, k at level 200,
   format "'[v' 'let*'  x  :=  m  'in' '/' k ']'").

(** ** file_flows/core.py *)

Module FileOps.
Section Methods.
Context `{E : Env}.

(** [@cached_property def s3(self)]: the first access runs
    [S3Ops(self._s3_cfg)] and stores the object in the instance; later
    accesses read the stored object. *)
Definition s3 : M Handle :=
  fun st =>
    match s3_cached (self st) with
    | Some h => (Return h, st, [])
    | None =>
        let h := S3Ops (_s3_cfg (self st)) (next_id st) in
        (Return h,
         {| local := local st; store := store st;
            self := {| _s3_cfg := _s3_cfg (self st); s3_cached := Some h |};
            next_id := S (next_id st) |},
         [S3OpsInit h])
    end.

(** [self.s3.<method>(...)]: evaluate the attribute, then call. *)
Definition self_s3 {A} (c : S3Call)
    (op : LocalFS * Store -> Outcome A * (LocalFS * Store)) : M A :=
  let* h := s3 in on_s3 h c op.

Definition s3_is_s3_path (path : string) : M bool :=
  self_s3 (c_is_s3_path path) (pure_op (Return (is_s3_path path))).

Definition s3_bucket_and_partition (path : string) : M (string * string) :=
  self_s3 (c_bucket_and_partition path) (pure_op (bucket_and_partition path)).

Definition create (location : string) : M unit :=
  let* is_s3 := s3_is_s3_path location in
  if is_s3 then
    let* (bucket_name, _) := s3_bucket_and_partition location in
    self_s3 (c_get_bucket bucket_name) (get_bucket bucket_name)
  else
    on_lib (c_Path_mkdir location true true)
           (local_op (Path_mkdir true true (Path location))).

Definition delete (file : string) (if_exists : bool)
    : M (option DeleteResponse) :=
  let* is_s3 := s3_is_s3_path file in
  if is_s3 then
    let* r := self_s3 (c_delete_file file if_exists)
                      (delete_file file if_exists) in
    ret (Some r)
  else
    let* _ :=
      try_except_FileNotFoundError
        (on_lib (c_Path_unlink file) (local_op (Path_unlink (Path file))))
        (if negb if_exists then raise FileNotFoundError else ret tt) in
    ret None.

Definition transfer (src_path dst_path : string) (delete_src : bool) : M unit :=
  let* _ :=
    let* src_is_s3 := s3_is_s3_path src_path in
    if src_is_s3 then
      let* dst_is_s3 := s3_is_s3_path dst_path in
      if dst_is_s3 then
        self_s3 (c_transfer_s3_location src_path dst_path delete_src)
                (transfer_s3_location src_path dst_path delete_src)
      else
        self_s3 (c_download_file src_path dst_path true)
                (download_file src_path dst_path true)
    else
      let* dst_is_s3 := s3_is_s3_path dst_path in
      if dst_is_s3 then
        let* (bucket_name, file_path) := s3_bucket_and_partition dst_path in
        self_s3 (c_client_upload_file src_path bucket_name file_path)
                (client_upload_file src_path bucket_name file_path)
      else
        let* _ := on_lib (c_shutil_copy src_path dst_path)
                         (local_op (shutil_copy src_path dst_path)) in
        ret tt
  in
  if delete_src then
    let* _ := delete src_path false in ret tt
  else ret tt.

Definition copy (src_path dst_path : string) : M unit :=
  transfer src_path dst_path false.

Definition move (src_path dst_path : string) : M unit :=
  transfer src_path dst_path true.

Definition exists_ (file : string) : M bool :=
  let* is_s3 := s3_is_s3_path file in
  if is_s3 then self_s3 (c_exists file) (s3_exists file)
  else on_lib (c_Path_exists file)
              (local_query (fun fs => Return (Path_exists (Path file) fs))).

Definition file_size (file : string) : M nat :=
  let* is_s3 := s3_is_s3_path file in
  if is_s3 then self_s3 (c_file_size file) (s3_file_size file)
  else on_lib (c_os_path_getsize file) (local_query (os_path_getsize file)).

(** [if pattern:] is false for [None] and for the empty string. *)
Definition truthy (pattern : option string) : option string :=
  match pattern with
  | Some p => if String.eqb p "" then None else Some p
  | None => None
  end.

(** The result is a list of [Path] for a local directory and a list of
    [str] for a remote one. *)
Definition list_files (directory : string) (pattern : option string)
    : M (list PurePath + list string) :=
  let* is_s3 := s3_is_s3_path directory in
  if is_s3 then
    let* l := self_s3 (c_list_files directory pattern)
                      (s3_list_files directory pattern) in
    ret (inr l)
  else
    match truthy pattern with
    | Some p =>
        let* l := on_lib (c_Path_glob directory p)
                    (local_query (Path_glob fnmatch (Path directory) p)) in
        ret (inl l)
    | None =>
        let* l := on_lib (c_Path_iterdir directory)
                    (local_query (Path_iterdir (Path directory))) in
        ret (inl l)
    end.

Definition parquet_column_names (file : string) : M (list string) :=
  let* filesystem :=
    let* is_s3 := s3_is_s3_path file in
    if is_s3 then
      let* a := self_s3 c_arrow_fs arrow_fs in ret (Some a)
    else ret None
  in
  on_lib (c_read_schema file filesystem) (read_schema file filesystem).

(** [header is True] *)
Definition is_True (v : PyValue) : bool :=
  match v with PyBool true => true | _ => false end.

(** [isinstance(header, (list, tuple))] *)
Definition is_list_or_tuple (v : PyValue) : bool :=
  match v with PyList _ | PyTuple _ => true | _ => false end.

Definition df_from_csv (path : string) (header : PyValue) (dtypes : Dtypes)
    (return_as : string) : M (PandasFrame + PolarsFrame) :=
  let* is_s3 := s3_is_s3_path path in
  if is_s3 then
    self_s3 (c_df_from_csv path header dtypes return_as)
            (s3_df_from_csv path header dtypes return_as)
  else
    let has_header := is_True header in
    let columns := if is_list_or_tuple header then header else PyNone in
    let* df := on_lib (c_pl_read_csv path dtypes has_header columns)
                      (pl_read_csv path dtypes has_header columns) in
    if String.eqb return_as "pandas" then
      let* pdf := on_lib c_to_pandas (pure_op (Return (to_pandas df))) in
      ret (inl pdf)
    else ret (inr df).

Definition df_from_parquet (path : string) (return_as : string)
    : M (PandasFrame + PolarsFrame) :=
  let* is_s3 := s3_is_s3_path path in
  if is_s3 then
    self_s3 (c_df_from_parquet path return_as)
            (s3_df_from_parquet path return_as)
  else
    let* df := on_lib (c_pl_read_parquet path) (pl_read_parquet path) in
    if String.eqb return_as "pandas" then
      let* pdf := on_lib c_to_pandas (pure_op (Return (to_pandas df))) in
      ret (inl pdf)
    else ret (inr df).

End Methods.
End FileOps.

(** ** Clients *)

Section Clients.
Context `{E : Env}.

(** One call of a public member of [FileOps]. *)
Inductive Op : Type :=
  | op_create (location : string)
  | op_transfer (src_path dst_path : string) (delete_src : bool)
  | op_copy (src_path dst_path : string)
  | op_move (src_path dst_path : string)
  | op_delete (file : string) (if_exists : bool)
  | op_exists (file : string)
  | op_file_size (file : string)
  | op_list_files (directory : string) (pattern : option string)
  | op_parquet_column_names (file : string)
  | op_df_from_csv (path : string) (header : PyValue) (dtypes : Dtypes)
                   (return_as : string)
  | op_df_from_parquet (path : string) (return_as : string)
  | op_s3.

(** The call with its result dropped. *)
Definition call (o : Op) : M unit :=
  match o with
  | op_create l => FileOps.create l
  | op_transfer a b d => FileOps.transfer a b d
  | op_copy a b => FileOps.copy a b
  | op_move a b => FileOps.move a b
  | op_delete f i => let* _ := FileOps.delete f i in ret tt
  | op_exists f => let* _ := FileOps.exists_ f in ret tt
  | op_file_size f => let* _ := FileOps.file_size f in ret tt
  | op_list_files d p => let* _ := FileOps.list_files d p in ret tt
  | op_parquet_column_names f =>
      let* _ := FileOps.parquet_column_names f in ret tt
  | op_df_from_csv p h d r => let* _ := FileOps.df_from_csv p h d r in ret tt
  | op_df_from_parquet p r => let* _ := FileOps.df_from_parquet p r in ret tt
  | op_s3 => let* _ := FileOps.s3 in ret tt
  end.

(** A client that makes the calls one after the other on the same
    instance and carries on after an exception. *)
Fixpoint session (ops : list Op) (st : State) : State * list Event :=
  match ops with
  | [] => (st, [])
  | o :: ops' =>
      match call o st with
      | (_, st1, t1) =>
          match session ops' st1 with
          | (st2, t2) => (st2, t1 ++ t2)
          end
      end
  end.

(** Observations on traces. *)
Definition is_init (ev : Event) : bool :=
  match ev with S3OpsInit _ => true | _ => false end.

Definition inits (t : list Event) : nat := length (List.filter is_init t).

(** The handles through which the calls of a trace went. *)
Definition handles (t : list Event) : list Handle :=
  omap (fun ev => match ev with
                  | S3OpsInit h | OnS3 h _ => Some h
                  | OnLib _ => None
                  end) t.



(** The requests to remove [path] that a trace contains: a delegated
    [delete_src] flag, a remote [delete_file], a local [unlink]. *)
Definition removes (path : string) (ev : Event) : bool :=
  match ev with
  | OnS3 _ (c_transfer_s3_location src _ true) => String.eqb src path
  | OnS3 _ (c_delete_file f _) => String.eqb f path
  | OnLib (c_Path_unlink f) => String.eqb f path
  | _ => false
  end.

End Clients.

(** ** Observations on runs *)

Section Observations.
Context `{E : Env}.

Definition result {A} (x : Outcome A * State * list Event) : Outcome A :=
  fst (fst x).
Definition post {A} (x : Outcome A * State * list Event) : State :=
  snd (fst x).
Definition trace {A} (x : Outcome A * State * list Event) : list Event :=
  snd x.

Definition returns {A} (x : Outcome A * State * list Event) : Prop :=
  match result x with Return _ => True | Raise _ => False end.

(** The handle every call made from [st] goes through: the cached one,
    or the one the first access of [s3] is about to build. *)
Definition the_handle (st : State) : Handle :=
  match s3_cached (self st) with
  | Some h => h
  | None => S3Ops (_s3_cfg (self st)) (next_id st)
  end.

(** The state once [s3] has been accessed, and the event that access
    leaves. *)
Definition warmed (st : State) : State :=
  match s3_cached (self st) with
  | Some _ => st
  | None =>
      {| local := local st; store := store st;
         self := {| _s3_cfg := _s3_cfg (self st);
                    s3_cached := Some (the_handle st) |};
         next_id := S (next_id st) |}
  end.

Definition init_trace (st : State) : list Event :=
  match s3_cached (self st) with
  | Some _ => []
  | None => [S3OpsInit (the_handle st)]
  end.

(** How a run from [st] to [st'] with trace [t] may treat the instance:
    [_s3_cfg] is never written; once a handle is cached it stays, no
    [S3Ops] is built any more and every call goes through it; from a
    fresh instance either [s3] is not touched at all, or it is built
    exactly once, before any call on it ([t0] holds library calls
    only). *)
Definition lazily (st st' : State) (t : list Event) : Prop :=
  _s3_cfg (self st') = _s3_cfg (self st) /\
  match s3_cached (self st) with
  | Some h =>
      s3_cached (self st') = Some h /\ next_id st' = next_id st /\
      inits t = 0 /\ Forall (eq h) (handles t)
  | None =>
      (s3_cached (self st') = None /\ next_id st' = next_id st /\
       handles t = []) \/
      (s3_cached (self st') = Some (the_handle st) /\
       next_id st' = S (next_id st) /\
       exists t0 t', t = t0 ++ S3OpsInit (the_handle st) :: t' /\
                     handles t0 = [] /\ inits t' = 0 /\
                     Forall (eq (the_handle st)) (handles t'))
  end.

(** A computation that treats the instance this way from every state. *)
Definition tame {A} (m : M A) : Prop :=
  forall st, lazily st (post (m st)) (trace (m st)).

(** The path argument a call classifies first ([s3] itself takes none). *)
Definition first_path (o : Op) : option string :=
  match o with
  | op_create p | op_transfer p _ _ | op_copy p _ | op_move p _
  | op_delete p _ | op_exists p | op_file_size p | op_list_files p _
  | op_parquet_column_names p | op_df_from_csv p _ _ _
  | op_df_from_parquet p _ => Some p
  | op_s3 => None
  end.



(** A relative pattern of one component that is not recursive, such as
    [*.parquet]. *)
Definition one_level_pattern (pattern comp : string) : Prop :=
  starts_with_slash pattern = false /\
  names (Path pattern) = [comp] /\
  has_substring "**" comp = false.

(** The calls that remove a file or an object: [S3Ops.delete_file] and
    [Path.unlink]. *)
Definition is_delete_call (ev : Event) : bool :=
  match ev with
  | OnS3 _ (c_delete_file _ _) | OnLib (c_Path_unlink _) => true
  | _ => false
  end.

Definition is_lib_call (ev : Event) : bool :=
  match ev with OnLib _ => true | _ => false end.

Definition is_get_bucket (ev : Event) : bool :=
  match ev with OnS3 _ (c_get_bucket _) => true | _ => false end.

(** The answer of the call with which [transfer] moves the bytes, on the
    world [w]: one of the three calls on the handle or [shutil.copy],
    chosen as [transfer] chooses ([bucket_and_partition] comes first on
    the upload route). *)
Definition transfer_action (src dst : string) (delete_src : bool)
    (w : LocalFS * Store) : Outcome unit :=
  if is_s3_path src then
    if is_s3_path dst then fst (transfer_s3_location src dst delete_src w)
    else fst (download_file src dst true w)
  else if is_s3_path dst then
    match bucket_and_partition dst with
    | Raise e => Raise e
    | Return (bucket, key) => fst (client_upload_file src bucket key w)
    end
  else
    match fst (shutil_copy src dst (fst w)) with
    | Raise e => Raise e
    | Return _ => Return tt
    end.

End Observations.

(** ** An object store after the prose specification *)

Module SpecS3.

(** Modelled from the spec: the state of the remote store, which
    [file_flows/s3.py] reaches through its client; buckets map keys to
    object contents. *)
Abbreviation Buckets := (gmap string (gmap string (list Byte.byte))).

(** Modelled from the spec: [S3Ops.is_s3_path] of [file_flows/s3.py]: "a
    path is Remote iff it matches a recognized remote-URI prefix (e.g.,
    s3://...); otherwise Local". *)
Definition is_s3_path (path : string) : bool := String.prefix "s3://" path.

Fixpoint split_first_slash (s : string) : string * string :=
  match s with
  | EmptyString => (EmptyString, EmptyString)
  | String c s' =>
      if Ascii.eqb c slash then (EmptyString, s')
      else let (b, k) := split_first_slash s' in (String c b, k)
  end.

(** Modelled from the spec: [S3Ops.bucket_and_partition]: "valid only on
    a Remote classification; splits the remainder after the scheme into
    (bucket, key) at the first path separator.  Fails with
    InvalidLocationError if given a Local path". *)
Definition bucket_and_partition (path : string) : Outcome (string * string) :=
  if is_s3_path path
  then Return (split_first_slash (String.substring 5 (String.length path - 5) path))
  else Raise InvalidLocationError.

Definition find_object (b : Buckets) (bucket key : string)
    : option (list Byte.byte) :=
  match b !! bucket with
  | Some objs => objs !! key
  | None => None
  end.

Definition put_object (bucket key : string) (data : list Byte.byte)
    (b : Buckets) : Outcome unit * Buckets :=
  match b !! bucket with
  | Some objs => (Return tt, <[bucket := <[key := data]> objs]> b)
  | None => (Raise NotFoundError, b)
  end.

Definition remove_object (bucket key : string) (b : Buckets) : Buckets :=
  match b !! bucket with
  | Some objs => <[bucket := base.delete key objs]> b
  | None => b
  end.

(** Modelled from the spec: [S3Ops.get_bucket]: "ensure the named bucket
    exists (delegate to store collaborator); no key-level creation
    occurs". *)
Definition get_bucket (bucket : string) (w : LocalFS * Buckets)
    : Outcome unit * (LocalFS * Buckets) :=
  match snd w !! bucket with
  | Some _ => (Return tt, w)
  | None => (Return tt, (fst w, <[bucket := ∅]> (snd w)))
  end.

(** Modelled from the spec: [S3Ops.exists]: "Remote delegates to store
    existence check ... No exceptions for the not-found case". *)
Definition s3_exists (file : string) (w : LocalFS * Buckets)
    : Outcome bool * (LocalFS * Buckets) :=
  match bucket_and_partition file with
  | Raise e => (Raise e, w)
  | Return (bucket, key) =>
      (Return (bool_decide (is_Some (find_object (snd w) bucket key))), w)
  end.

(** Modelled from the spec: [S3Ops.file_size]: "Returns byte count; fails
    with NotFoundError if the location does not exist". *)
Definition s3_file_size (file : string) (w : LocalFS * Buckets)
    : Outcome nat * (LocalFS * Buckets) :=
  match bucket_and_partition file with
  | Raise e => (Raise e, w)
  | Return (bucket, key) =>
      match find_object (snd w) bucket key with
      | Some data => (Return (length data), w)
      | None => (Raise NotFoundError, w)
      end
  end.

(** Modelled from the spec: [S3Ops.delete_file]: "Remote: delegate
    deletion, suppressing not-found if if_missing_ok". *)
Definition delete_file (file : string) (if_exists : bool)
    (w : LocalFS * Buckets) : Outcome unit * (LocalFS * Buckets) :=
  match bucket_and_partition file with
  | Raise e => (Raise e, w)
  | Return (bucket, key) =>
      match find_object (snd w) bucket key with
      | Some _ => (Return tt, (fst w, remove_object bucket key (snd w)))
      | None => if if_exists then (Return tt, w) else (Raise NotFoundError, w)
      end
  end.

(** Modelled from the spec: [S3Ops.list_files]: "delegate to store
    listing, optionally filtered by pattern". *)
Definition s3_list_files (directory : string) (pattern : option string)
    (w : LocalFS * Buckets) : Outcome (list string) * (LocalFS * Buckets) :=
  match bucket_and_partition directory with
  | Raise e => (Raise e, w)
  | Return (bucket, prefix) =>
      match snd w !! bucket with
      | None => (Raise NotFoundError, w)
      | Some objs =>
          let keep key :=
            String.prefix prefix key
            && match pattern with
               | Some p => fnmatchcase key p
               | None => true
               end in
          (Return (map (fun key => ("s3://" ++ bucket ++ "/" ++ key)%string)
                       (List.filter keep (map fst (map_to_list objs)))), w)
      end
  end.

(** Modelled from the spec: [S3Ops.transfer_s3_location]: the
    "server-side remote transfer" of one object, which removes the source
    afterwards when [delete_src] is set. *)
Definition transfer_s3_location (src_path dst_path : string) (delete_src : bool)
    (w : LocalFS * Buckets) : Outcome unit * (LocalFS * Buckets) :=
  match bucket_and_partition src_path, bucket_and_partition dst_path with
  | Raise e, _ | _, Raise e => (Raise e, w)
  | Return (sb, sk), Return (db, dk) =>
      match find_object (snd w) sb sk with
      | None => (Raise NotFoundError, w)
      | Some data =>
          match put_object db dk data (snd w) with
          | (Raise e, _) => (Raise e, w)
          | (Return tt, b1) =>
              (Return tt,
               (fst w, if delete_src then remove_object sb sk b1 else b1))
          end
      end
  end.

(** Modelled from the spec: [S3Ops.download_file]: the "download" leg of
    the transfer; the object is written to the local path, replacing a
    file that is there when [overwrite] is set. *)
Definition download_file (s3_path local_path : string) (overwrite : bool)
    (w : LocalFS * Buckets) : Outcome unit * (LocalFS * Buckets) :=
  match bucket_and_partition s3_path with
  | Raise e => (Raise e, w)
  | Return (bucket, key) =>
      match find_object (snd w) bucket key with
      | None => (Raise NotFoundError, w)
      | Some data =>
          if negb overwrite && Path_exists (Path local_path) (fst w)
          then (Return tt, w)
          else match open_wb local_path data (fst w) with
               | (r, fs) => (r, (fs, snd w))
               end
      end
  end.

(** Modelled from the spec: the client's [upload_file], the "upload" leg
    of the transfer: the local file becomes the object [key] of
    [bucket]. *)
Definition client_upload_file (filename bucket key : string)
    (w : LocalFS * Buckets) : Outcome unit * (LocalFS * Buckets) :=
  match open_rb (fst w) filename with
  | Raise e => (Raise e, w)
  | Return data =>
      match put_object bucket key data (snd w) with
      | (r, b) => (r, (fst w, b))
      end
  end.

(** Tabular data is kept symbolic: a frame records what it was read from
    and with which options. *)
Inductive Frame : Type :=
  | FromCsv (data : list Byte.byte) (dtypes : Dtypes) (has_header : bool)
            (columns : PyValue)
  | FromParquet (data : list Byte.byte).

Inductive Pandas : Type := ToPandas (f : Frame).

Definition shaped (return_as : string) (f : Frame) : Pandas + Frame :=
  if String.eqb return_as "pandas" then inl (ToPandas f) else inr f.

Definition pl_read_csv (path : string) (dtypes : Dtypes) (has_header : bool)
    (columns : PyValue) (w : LocalFS * Buckets)
    : Outcome Frame * (LocalFS * Buckets) :=
  match open_rb (fst w) path with
  | Raise e => (Raise e, w)
  | Return data => (Return (FromCsv data dtypes has_header columns), w)
  end.

Definition pl_read_parquet (path : string) (w : LocalFS * Buckets)
    : Outcome Frame * (LocalFS * Buckets) :=
  match open_rb (fst w) path with
  | Raise e => (Raise e, w)
  | Return data => (Return (FromParquet data), w)
  end.

Definition read_object {A} (path : string) (k : list Byte.byte -> Outcome A)
    (w : LocalFS * Buckets) : Outcome A * (LocalFS * Buckets) :=
  match bucket_and_partition path with
  | Raise e => (Raise e, w)
  | Return (bucket, key) =>
      match find_object (snd w) bucket key with
      | None => (Raise NotFoundError, w)
      | Some data => (k data, w)
      end
  end.

(** Modelled from the spec: [S3Ops.df_from_csv]: "header may be: boolean
    (true = first row is header) or an explicit ordered sequence of column
    names to select". *)
Definition s3_df_from_csv (path : string) (header : PyValue) (dtypes : Dtypes)
    (return_as : string) : LocalFS * Buckets
    -> Outcome (Pandas + Frame) * (LocalFS * Buckets) :=
  read_object path
    (fun data =>
       Return (shaped return_as
                 (FromCsv data dtypes (FileOps.is_True header)
                    (if FileOps.is_list_or_tuple header then header
                     else PyNone)))).

(** Modelled from the spec: [S3Ops.df_from_parquet]. *)
Definition s3_df_from_parquet (path : string) (return_as : string)
    : LocalFS * Buckets -> Outcome (Pandas + Frame) * (LocalFS * Buckets) :=
  read_object path (fun data => Return (shaped return_as (FromParquet data))).

Section Reader.
(** The column names in the footer of a parquet file. *)
Variable schema_of : list Byte.byte -> Outcome (list string).

Definition read_schema (file : string) (filesystem : option unit)
    (w : LocalFS * Buckets) : Outcome (list string) * (LocalFS * Buckets) :=
  match filesystem with
  | Some _ => read_object file schema_of w
  | None =>
      match open_rb (fst w) file with
      | Raise e => (Raise e, w)
      | Return data => (schema_of data, w)
      end
  end.

Definition env : Env := {|
  S3Cfg := string;
  Store := Buckets;
  DeleteResponse := unit;
  ArrowFS := unit;
  PolarsFrame := Frame;
  PandasFrame := Pandas;
  Collab.is_s3_path := is_s3_path;
  Collab.bucket_and_partition := bucket_and_partition;
  Collab.get_bucket := get_bucket;
  Collab.transfer_s3_location := transfer_s3_location;
  Collab.download_file := download_file;
  Collab.client_upload_file := client_upload_file;
  Collab.delete_file := delete_file;
  Collab.s3_exists := s3_exists;
  Collab.s3_file_size := s3_file_size;
  Collab.s3_list_files := s3_list_files;
  arrow_fs := pure_op (Return tt);
  Collab.s3_df_from_csv := s3_df_from_csv;
  Collab.s3_df_from_parquet := s3_df_from_parquet;
  fnmatch := fnmatchcase;
  Collab.read_schema := read_schema;
  Collab.pl_read_csv := pl_read_csv;
  Collab.pl_read_parquet := pl_read_parquet;
  to_pandas := ToPandas
|}.

End Reader.
End SpecS3.

(** ** A small world for examples *)

Module Sample.

Definition bytes (s : string) : list Byte.byte := list_byte_of_string s.

(** [/tmp] holds the file [f] and the directory [data], which holds two
    files and the directory [sub] with one more parquet file. *)
Definition fs : LocalFS := {|
  nodes := list_to_map
    [ (["tmp"], Dir);
      (["tmp"; "f"], File (bytes "abc"));
      (["tmp"; "data"], Dir);
      (["tmp"; "data"; "a.parquet"], File (bytes "PAR1"));
      (["tmp"; "data"; "notes.txt"], File (bytes "hi"));
      (["tmp"; "data"; "sub"], Dir);
      (["tmp"; "data"; "sub"; "b.parquet"], File (bytes "PAR1")) ];
  cwd := ["tmp"];
  dir_size := 4096
|}.

Definition buckets : SpecS3.Buckets :=
  {[ "bkt" := {[ "a.csv" := bytes "x,y" ]} ]}.

Definition env : Env := SpecS3.env (fun _ => Return []).

(** A [FileOps()] just constructed, without configuration. *)
Definition fresh : @State env := @mkState env fs buckets (@__init__ env None) 0.

End Sample.

(** * Properties *)

(** ** The effect monad *)

Section MonadFacts.
Context `{E : Env}.

Lemma bind_assoc {A B C} (m : M A) (k : A -> M B) (k' : B -> M C) st :
  bind (bind m k) k' st = bind m (fun a => bind (k a) k') st.
Proof.
  unfold bind. destruct (m st) as [[[a|e] st1] t1]; [|reflexivity].
  destruct (k a st1) as [[[b|e] st2] t2]; [|reflexivity].
  destruct (k' b st2) as [[r st3] t3]. by rewrite app_assoc.
Qed.

Lemma bind_ret_l {A B} (a : A) (k : A -> M B) st : bind (ret a) k st = k a st.
Proof. unfold bind, ret. by destruct (k a st) as [[r st2] t2]. Qed.

Lemma s3_run st :
  FileOps.s3 st = (Return (the_handle st), warmed st, init_trace st).
Proof.
  unfold FileOps.s3, warmed, init_trace, the_handle.
  destruct (s3_cached (self st)) eqn:Hc; rewrite ?Hc; reflexivity.
Qed.

Lemma warmed_cached st : s3_cached (self (warmed st)) = Some (the_handle st).
Proof.
  unfold warmed, the_handle.
  destruct (s3_cached (self st)) eqn:Hc; simpl; [exact Hc | reflexivity].
Qed.

Lemma warmed_world st :
  local (warmed st) = local st /\ store (warmed st) = store st.
Proof. unfold warmed. by destruct (s3_cached (self st)). Qed.

Lemma warmed_cfg st : _s3_cfg (self (warmed st)) = _s3_cfg (self st).
Proof. unfold warmed. by destruct (s3_cached (self st)). Qed.

Lemma warmed_idem st : warmed (warmed st) = warmed st.
Proof.
  unfold warmed at 1. by rewrite warmed_cached.
Qed.

Lemma the_handle_warmed st : the_handle (warmed st) = the_handle st.
Proof. unfold the_handle at 1. by rewrite warmed_cached. Qed.

Lemma init_trace_warmed st : init_trace (warmed st) = [].
Proof. unfold init_trace. by rewrite warmed_cached. Qed.

Lemma warmed_with_world w st :
  warmed (with_world w st) = with_world w (warmed st).
Proof.
  unfold warmed, with_world, the_handle. simpl.
  by destruct (s3_cached (self st)).
Qed.

Lemma the_handle_with_world w st : the_handle (with_world w st) = the_handle st.
Proof. reflexivity. Qed.

Lemma with_world_same st : with_world (local st, store st) st = st.
Proof. by destruct st. Qed.

Lemma with_world_twice w w' st :
  with_world w (with_world w' st) = with_world w st.
Proof. reflexivity. Qed.

(** [self.s3.m(...)] runs [m] on the world, after the handle is there. *)
Lemma self_s3_run {A} c (op : LocalFS * Store -> Outcome A * (LocalFS * Store)) st :
  FileOps.self_s3 c op st =
  (fst (op (local st, store st)),
   with_world (snd (op (local st, store st))) (warmed st),
   init_trace st ++ [OnS3 (the_handle st) c]).
Proof.
  unfold FileOps.self_s3, bind. rewrite s3_run. unfold on_s3.
  destruct (warmed_world st) as [-> ->].
  by destruct (op (local st, store st)) as [r w].
Qed.

Lemma s3_is_s3_path_run path st :
  FileOps.s3_is_s3_path path st =
  (Return (is_s3_path path), warmed st,
   init_trace st ++ [OnS3 (the_handle st) (c_is_s3_path path)]).
Proof.
  unfold FileOps.s3_is_s3_path. rewrite self_s3_run. simpl.
  destruct (warmed_world st) as [H1 H2].
  f_equal. f_equal. rewrite <- H1, <- H2. apply with_world_same.
Qed.

Lemma on_lib_run {A} c (op : LocalFS * Store -> Outcome A * (LocalFS * Store)) st :
  on_lib c op st =
  (fst (op (local st, store st)),
   with_world (snd (op (local st, store st))) st, [OnLib c]).
Proof. unfold on_lib. by destruct (op (local st, store st)). Qed.

(** A method that starts by classifying [path] continues from the warmed
    state with the answer. *)
Lemma classify_then {A} path (k : bool -> M A) st :
  bind (FileOps.s3_is_s3_path path) k st =
  (result (k (is_s3_path path) (warmed st)),
   post (k (is_s3_path path) (warmed st)),
   init_trace st ++ OnS3 (the_handle st) (c_is_s3_path path)
     :: trace (k (is_s3_path path) (warmed st))).
Proof.
  unfold bind. rewrite s3_is_s3_path_run.
  destruct (k (is_s3_path path) (warmed st)) as [[r st2] t2].
  unfold result, post, trace. simpl. by rewrite <- app_assoc.
Qed.

(** Result, final state and trace of the combinators, for rewriting. *)
Lemma result_bind {A B} (m : M A) (k : A -> M B) st :
  result (bind m k st) =
  match result (m st) with
  | Return a => result (k a (post (m st)))
  | Raise e => Raise e
  end.
Proof.
  unfold bind, result, post. destruct (m st) as [[[a|e] st1] t1]; simpl; [|done].
  by destruct (k a st1) as [[r st2] t2].
Qed.

Lemma post_bind {A B} (m : M A) (k : A -> M B) st :
  post (bind m k st) =
  match result (m st) with
  | Return a => post (k a (post (m st)))
  | Raise e => post (m st)
  end.
Proof.
  unfold bind, result, post. destruct (m st) as [[[a|e] st1] t1]; simpl; [|done].
  by destruct (k a st1) as [[r st2] t2].
Qed.

Lemma trace_bind {A B} (m : M A) (k : A -> M B) st :
  trace (bind m k st) =
  trace (m st) ++
  match result (m st) with
  | Return a => trace (k a (post (m st)))
  | Raise e => []
  end.
Proof.
  unfold bind, result, post, trace.
  destruct (m st) as [[[a|e] st1] t1]; simpl; [|by rewrite app_nil_r].
  by destruct (k a st1) as [[r st2] t2].
Qed.

Lemma result_try {A} (m handler : M A) st :
  result (try_except_FileNotFoundError m handler st) =
  match result (m st) with
  | Raise e => if is_FileNotFoundError e then result (handler (post (m st)))
               else Raise e
  | r => r
  end.
Proof.
  unfold try_except_FileNotFoundError, result, post.
  destruct (m st) as [[[a|e] st1] t1]; simpl; [done|].
  destruct (is_FileNotFoundError e); [|done].
  by destruct (handler st1) as [[r st2] t2].
Qed.

Lemma post_try {A} (m handler : M A) st :
  post (try_except_FileNotFoundError m handler st) =
  match result (m st) with
  | Raise e => if is_FileNotFoundError e then post (handler (post (m st)))
               else post (m st)
  | _ => post (m st)
  end.
Proof.
  unfold try_except_FileNotFoundError, result, post.
  destruct (m st) as [[[a|e] st1] t1]; simpl; [done|].
  destruct (is_FileNotFoundError e); [|done].
  by destruct (handler st1) as [[r st2] t2].
Qed.

Lemma trace_try {A} (m handler : M A) st :
  trace (try_except_FileNotFoundError m handler st) =
  trace (m st) ++
  match result (m st) with
  | Raise e => if is_FileNotFoundError e then trace (handler (post (m st)))
               else []
  | _ => []
  end.
Proof.
  unfold try_except_FileNotFoundError, result, post, trace.
  destruct (m st) as [[[a|e] st1] t1]; simpl; [by rewrite app_nil_r|].
  destruct (is_FileNotFoundError e); [|by rewrite app_nil_r].
  by destruct (handler st1) as [[r st2] t2].
Qed.

Lemma result_self_s3 {A} c (op : LocalFS * Store -> Outcome A * (LocalFS * Store)) st :
  result (FileOps.self_s3 c op st) = fst (op (local st, store st)).
Proof. by rewrite self_s3_run. Qed.

Lemma post_self_s3 {A} c (op : LocalFS * Store -> Outcome A * (LocalFS * Store)) st :
  post (FileOps.self_s3 c op st)
  = with_world (snd (op (local st, store st))) (warmed st).
Proof. by rewrite self_s3_run. Qed.

Lemma trace_self_s3 {A} c (op : LocalFS * Store -> Outcome A * (LocalFS * Store)) st :
  trace (FileOps.self_s3 c op st) = init_trace st ++ [OnS3 (the_handle st) c].
Proof. by rewrite self_s3_run. Qed.

Lemma result_classify path st :
  result (FileOps.s3_is_s3_path path st) = Return (is_s3_path path).
Proof. by rewrite s3_is_s3_path_run. Qed.

Lemma post_classify path st : post (FileOps.s3_is_s3_path path st) = warmed st.
Proof. by rewrite s3_is_s3_path_run. Qed.

Lemma trace_classify path st :
  trace (FileOps.s3_is_s3_path path st)
  = init_trace st ++ [OnS3 (the_handle st) (c_is_s3_path path)].
Proof. by rewrite s3_is_s3_path_run. Qed.

Lemma result_on_lib {A} c (op : LocalFS * Store -> Outcome A * (LocalFS * Store)) st :
  result (on_lib c op st) = fst (op (local st, store st)).
Proof. by rewrite on_lib_run. Qed.

Lemma post_on_lib {A} c (op : LocalFS * Store -> Outcome A * (LocalFS * Store)) st :
  post (on_lib c op st) = with_world (snd (op (local st, store st))) st.
Proof. by rewrite on_lib_run. Qed.

Lemma trace_on_lib {A} c (op : LocalFS * Store -> Outcome A * (LocalFS * Store)) st :
  trace (on_lib c op st) = [OnLib c].
Proof. by rewrite on_lib_run. Qed.

Lemma run_ret {A} (a : A) st : ret a st = (Return a, st, []).
Proof. reflexivity. Qed.

Lemma run_raise {A} e st : @raise E A e st = (Raise e, st, []).
Proof. reflexivity. Qed.

Lemma result_pair {A} (r : Outcome A) st t : result (r, st, t) = r.
Proof. reflexivity. Qed.

Lemma post_pair {A} (r : Outcome A) st t : post (r, st, t) = st.
Proof. reflexivity. Qed.

Lemma trace_pair {A} (r : Outcome A) st t : trace (r, st, t) = t.
Proof. reflexivity. Qed.

Lemma init_trace_with_world w st : init_trace (with_world w st) = init_trace st.
Proof. reflexivity. Qed.

Lemma local_with_world w st : local (with_world w st) = fst w.
Proof. reflexivity. Qed.

Lemma store_with_world w st : store (with_world w st) = snd w.
Proof. reflexivity. Qed.

Lemma local_warmed st : local (warmed st) = local st.
Proof. apply warmed_world. Qed.

Lemma store_warmed st : store (warmed st) = store st.
Proof. apply warmed_world. Qed.

End MonadFacts.

Create Rewrite HintDb run.
#[global] Hint Rewrite @run_ret @run_raise @result_pair @post_pair @trace_pair
  : run.
#[global] Hint Rewrite @result_bind @post_bind @trace_bind @result_try @post_try
  @trace_try @result_self_s3 @post_self_s3 @trace_self_s3 @result_classify
  @post_classify @trace_classify @result_on_lib @post_on_lib @trace_on_lib
  @init_trace_with_world @init_trace_warmed @the_handle_warmed
  @the_handle_with_world @warmed_idem @warmed_with_world @local_with_world
  @store_with_world @local_warmed @store_warmed @with_world_twice : run.

(** Rewrites a run into the answers of the calls it makes. *)
Ltac run_calls :=
  repeat (autorewrite with run; unfold pure_op, local_op, local_query;
          cbn [fst snd];
          try match goal with
              | H : is_s3_path _ = _ |- _ => rewrite !H
              | H : bucket_and_partition _ = _ |- _ => rewrite !H
              end).

Ltac run_methods :=
  unfold FileOps.copy, FileOps.move, FileOps.transfer, FileOps.delete,
    FileOps.create, FileOps.exists_, FileOps.file_size, FileOps.list_files,
    FileOps.parquet_column_names, FileOps.df_from_csv, FileOps.df_from_parquet,
    FileOps.s3_bucket_and_partition;
  run_calls.

(** Splits on the answers that are left. *)
Ltac split_answers :=
  repeat (run_calls;
          match goal with
          | |- context [if ?b then _ else _] => destruct b eqn:?
          | |- context [match fst ?x with _ => _ end] =>
              let r := fresh "r" in let w := fresh "w" in
              destruct x as [[r|r] w] eqn:?
          | |- context [match ?x with Return _ => _ | Raise _ => _ end] =>
              destruct x eqn:?
          | |- context [match ?x with (_, _) => _ end] =>
              destruct x eqn:?
          end);
  run_calls.

(** ** Dispatch of [transfer], [copy], [move] *)

Section Dispatch.
Context `{E : Env}.




(** C4: [copy] is [transfer] with [delete_src=False] and [move] is
    [transfer] with [delete_src=True]; the functions are equal, so they
    agree on result, final state and trace from every state. *)
Theorem copy_move_are_transfer src dst :
  FileOps.copy src dst = FileOps.transfer src dst false /\
  FileOps.move src dst = FileOps.transfer src dst true.
Proof. split; reflexivity. Qed.

End Dispatch.

(** ** The lazily built [S3Ops] handle *)

Section Lazy.
Context `{E : Env}.

Lemma handles_app (t1 t2 : list Event) : handles (t1 ++ t2) = handles t1 ++ handles t2.
Proof. unfold handles. apply omap_app. Qed.

Lemma inits_app (t1 t2 : list Event) : inits (t1 ++ t2) = inits t1 + inits t2.
Proof. unfold inits. by rewrite List.filter_app, length_app. Qed.

Lemma handles_nil_inits (t : list Event) : handles t = [] -> inits t = 0.
Proof.
  induction t as [|[h|h c|c] t IH]; simpl; done.
Qed.

Lemma lazily_refl st : lazily st st [].
Proof.
  split; [done|]. destruct (s3_cached (self st)) eqn:Hc.
  - repeat split; try done; constructor.
  - left. done.
Qed.

Lemma lazily_trans st st1 st2 t1 t2 :
  lazily st st1 t1 -> lazily st1 st2 t2 -> lazily st st2 (t1 ++ t2).
Proof.
  intros [Hcfg1 H1] [Hcfg2 H2]. split; [congruence|].
  destruct (s3_cached (self st)) as [h|] eqn:Hc.
  - destruct H1 as (Hc1 & Hn1 & Hi1 & Hh1). rewrite Hc1 in H2.
    destruct H2 as (Hc2 & Hn2 & Hi2 & Hh2).
    repeat split; [done|congruence| |].
    + rewrite inits_app. lia.
    + rewrite handles_app. by apply Forall_app.
  - destruct H1 as [(Hc1 & Hn1 & Hh1)|(Hc1 & Hn1 & t0 & t' & -> & Hh0 & Hi' & Hh')].
    + rewrite Hc1 in H2.
      assert (Hsame : the_handle st1 = the_handle st).
      { unfold the_handle. rewrite Hc1, Hc. congruence. }
      rewrite Hsame in H2.
      destruct H2 as [(Hc2 & Hn2 & Hh2)|(Hc2 & Hn2 & t0 & t' & -> & Hh0 & Hi' & Hh')].
      * left. repeat split; [done|congruence|]. rewrite handles_app, Hh1, Hh2. done.
      * right. repeat split; [done|congruence|].
        exists (t1 ++ t0), t'. rewrite <- app_assoc. repeat split; try done.
        rewrite handles_app, Hh1, Hh0. done.
    + rewrite Hc1 in H2. destruct H2 as (Hc2 & Hn2 & Hi2 & Hh2).
      right. repeat split; [done|congruence|].
      exists t0, (t' ++ t2). rewrite <- app_assoc. repeat split; try done.
      * rewrite inits_app. lia.
      * rewrite handles_app. by apply Forall_app.
Qed.

Lemma tame_ret {A} (a : A) : tame (ret a).
Proof. intros st. apply lazily_refl. Qed.

Lemma tame_raise {A} e : tame (@raise E A e).
Proof. intros st. apply lazily_refl. Qed.

Lemma tame_bind {A B} (m : M A) (k : A -> M B) :
  tame m -> (forall a, tame (k a)) -> tame (bind m k).
Proof.
  intros Hm Hk st. rewrite post_bind, trace_bind.
  destruct (result (m st)) as [a|e].
  - eapply lazily_trans; [apply Hm | apply Hk].
  - rewrite app_nil_r. apply Hm.
Qed.

Lemma tame_try {A} (m handler : M A) :
  tame m -> tame handler -> tame (try_except_FileNotFoundError m handler).
Proof.
  intros Hm Hh st. rewrite post_try, trace_try.
  destruct (result (m st)) as [a|e].
  - rewrite app_nil_r. apply Hm.
  - destruct (is_FileNotFoundError e).
    + eapply lazily_trans; [apply Hm | apply Hh].
    + rewrite app_nil_r. apply Hm.
Qed.

Lemma tame_on_lib {A} c (op : LocalFS * Store -> Outcome A * (LocalFS * Store)) :
  tame (on_lib c op).
Proof.
  intros st. rewrite post_on_lib, trace_on_lib.
  split; [done|]. simpl. destruct (s3_cached (self st)) eqn:Hc.
  - repeat split; try done; constructor.
  - left. done.
Qed.

Lemma lazily_warm st w c :
  lazily st (with_world w (warmed st)) (init_trace st ++ [OnS3 (the_handle st) c]).
Proof.
  split; [simpl; apply warmed_cfg|].
  pose proof (warmed_cached st) as Hw.
  unfold init_trace, warmed in *. unfold the_handle in *. simpl.
  destruct (s3_cached (self st)) as [h|] eqn:Hc; simpl in *.
  - repeat split; try done. by constructor.
  - right. repeat split; try done. exists [], [OnS3 {| obj_id := next_id st; handle_cfg := _s3_cfg (self st) |} c].
    repeat split; try done. by constructor.
Qed.

Lemma tame_self_s3 {A} c (op : LocalFS * Store -> Outcome A * (LocalFS * Store)) :
  tame (FileOps.self_s3 c op).
Proof. intros st. rewrite post_self_s3, trace_self_s3. apply lazily_warm. Qed.

Lemma tame_s3 : tame FileOps.s3.
Proof.
  intros st. rewrite s3_run. unfold post, trace. simpl.
  split; [apply warmed_cfg|].
  pose proof (warmed_cached st) as Hw.
  unfold init_trace, warmed in *. unfold the_handle in *.
  destruct (s3_cached (self st)) as [h|] eqn:Hc; simpl in *.
  - repeat split; try done.
  - right. repeat split; try done. exists [], []. repeat split; try done.
Qed.

Lemma tame_if {A} (b : bool) (m1 m2 : M A) :
  tame m1 -> tame m2 -> tame (if b then m1 else m2).
Proof. by destruct b. Qed.

Ltac tame_tac :=
  repeat first
    [ apply tame_ret | apply tame_raise | apply tame_on_lib
    | apply tame_self_s3 | apply tame_s3
    | apply tame_bind; [|intros ?] | apply tame_try | apply tame_if
    | match goal with
      | |- tame (match ?x with _ => _ end) => destruct x
      end ].

Lemma tame_delete f i : tame (FileOps.delete f i).
Proof. unfold FileOps.delete, FileOps.s3_is_s3_path. tame_tac. Qed.

Lemma tame_call (o : Op) : tame (call o).
Proof.
  destruct o; simpl;
    unfold FileOps.copy, FileOps.move, FileOps.transfer, FileOps.create,
      FileOps.exists_, FileOps.file_size, FileOps.list_files,
      FileOps.parquet_column_names, FileOps.df_from_csv,
      FileOps.df_from_parquet, FileOps.s3_is_s3_path,
      FileOps.s3_bucket_and_partition;
    tame_tac; try apply tame_delete.
Qed.

Lemma session_lazily ops st :
  lazily st (fst (session ops st)) (snd (session ops st)).
Proof.
  revert st. induction ops as [|o ops IH]; intros st; simpl.
  - apply lazily_refl.
  - pose proof (tame_call o st) as H1. unfold post, trace in H1.
    destruct (call o st) as [[r st1] t1]. simpl in H1.
    specialize (IH st1). destruct (session ops st1) as [st2 t2]. simpl in *.
    eapply lazily_trans; eauto.
Qed.

Lemma call_starts_with_s3 (o : Op) st :
  exists t',
    trace (call o st) =
    init_trace st ++
    match first_path o with
    | Some p => [OnS3 (the_handle st) (c_is_s3_path p)]
    | None => []
    end ++ t'.
Proof.
  destruct o; simpl; run_methods; rewrite ?s3_run; run_methods;
    rewrite <- ?app_assoc; simpl; eauto.
Qed.

Lemma session_shape o ops st :
  let st' := fst (session (o :: ops) st) in
  let t := snd (session (o :: ops) st) in
  _s3_cfg (self st') = _s3_cfg (self st) /\
  s3_cached (self st') = Some (the_handle st) /\
  Forall (eq (the_handle st)) (handles t) /\
  exists t',
    t = init_trace st ++
        match first_path o with
        | Some p => [OnS3 (the_handle st) (c_is_s3_path p)]
        | None => []
        end ++ t' /\
    inits t' = 0.
Proof.
  cbv zeta.
  pose proof (session_lazily (o :: ops) st) as [Hcfg Hl].
  assert (Hstart : exists t', snd (session (o :: ops) st) =
     init_trace st ++ match first_path o with
        | Some p => [OnS3 (the_handle st) (c_is_s3_path p)]
        | None => []
        end ++ t').
  { simpl. destruct (call_starts_with_s3 o st) as [t1 Ht1]. unfold trace in Ht1.
    destruct (call o st) as [[r st1] t0]. simpl in Ht1. subst t0.
    destruct (session ops st1) as [st2 t2]. simpl.
    exists (t1 ++ t2). by rewrite <- !app_assoc. }
  destruct Hstart as [t' Ht]. rewrite Ht in *.
  set (cl := match first_path o with
        | Some p => [OnS3 (the_handle st) (c_is_s3_path p)]
        | None => [] end) in *.
  assert (Hcl : inits cl = 0) by (subst cl; by destruct (first_path o)).
  split; [done|].
  unfold init_trace, the_handle in *.
  destruct (s3_cached (self st)) as [h|] eqn:Hc.
  - destruct Hl as (Hc' & _ & Hi & Hh). simpl in *.
    repeat split; try done. exists t'. split; [done|].
    rewrite inits_app in Hi. lia.
  - destruct Hl as [(_ & _ & Hh)|(Hc' & _ & t0 & t'' & Heq & Hh0 & Hi & Hh)];
      [done|].
    destruct t0 as [|ev t0]; simpl in Heq.
    + injection Heq as <-. repeat split; try done.
      * simpl. by constructor.
      * exists t'. split; [done|]. rewrite inits_app in Hi. lia.
    + injection Heq as <- _. done.
Qed.

(** C8: over any sequence of calls on one instance, [S3Ops] is built at
    most once, as the very first event of the first call when the
    instance is fresh and never when a handle is already cached; every
    call on [S3Ops] in the whole trace goes through that one handle; and
    the instance keeps nothing else: [_s3_cfg] is unchanged and the only
    attribute written is the cached handle. *)
Theorem s3_handle_built_once ops st :
  let st' := fst (session ops st) in
  let t := snd (session ops st) in
  let h := the_handle st in
  _s3_cfg (self st') = _s3_cfg (self st) /\
  s3_cached (self st')
    = match ops with [] => s3_cached (self st) | _ :: _ => Some h end /\
  Forall (eq h) (handles t) /\
  inits t <= 1 /\
  exists t',
    t = match ops with [] => [] | _ :: _ => init_trace st end ++ t' /\
    inits t' = 0.
Proof.
  destruct ops as [|o ops].
  - simpl. split; [done|]. split; [done|]. split; [constructor|].
    split; [unfold inits; simpl; lia|]. exists []. done.
  - cbv zeta. destruct (session_shape o ops st) as (Hcfg & Hc & Hh & t' & Ht & Hi).
    repeat split; try done.
    + rewrite Ht, !inits_app, Hi. unfold init_trace.
      destruct (s3_cached (self st)), (first_path o); simpl; lia.
    + eexists. split; [exact Ht|]. rewrite inits_app, Hi.
      by destruct (first_path o).
Qed.

(** C9: on a freshly constructed [FileOps], whatever its configuration
    ([None] included), every public call first builds [S3Ops] (the first
    event of its trace) and, for every method with a path argument, then
    asks that handle to classify the path; library calls on the local
    side can only follow.  The handle is cached afterwards. *)
Theorem every_call_builds_s3_first (o : Op) (cfg : option S3Cfg) fs b n :
  let st := {| local := fs; store := b; self := __init__ cfg; next_id := n |} in
  let h := S3Ops cfg n in
  s3_cached (self (post (call o st))) = Some h /\
  exists t',
    trace (call o st) =
      S3OpsInit h ::
      match first_path o with
      | Some p => [OnS3 h (c_is_s3_path p)]
      | None => []
      end ++ t' /\
    inits t' = 0.
Proof.
  cbv zeta.
  pose proof (session_shape o [] {| local := fs; store := b; self := __init__ cfg; next_id := n |}) as H.
  cbv zeta in H. simpl in H. unfold post, trace.
  destruct (call o _) as [[r st1] t1]. simpl in *.
  rewrite app_nil_r in H.
  destruct H as (_ & Hc & _ & t' & Ht & Hi). split; [exact Hc|].
  exists t'. split; [exact Ht | exact Hi].
Qed.

End Lazy.

(** ** Tabular reads *)

Section Tabular.
Context `{E : Env}.

End Tabular.

(** ** The local file system *)

Section LocalFileSystem.

Lemma drop_prefix_spec (d q r : list string) :
  drop_prefix d q = Some r <-> q = d ++ r.
Proof.
  revert q. induction d as [|x d IH]; intros q; simpl.
  - split; [by intros [= ->] | by intros ->].
  - destruct q as [|y q]; [split; [done | by intros [=]]|].
    destruct (String.eqb_spec x y) as [->|Hne].
    + rewrite IH. split; [by intros -> | by intros [= ->]].
    + split; [done | intros [= -> _]; done].
Qed.

Lemma child_of_spec (d q : list string) n :
  child_of d q = Some n <-> q = d ++ [n].
Proof.
  unfold child_of. destruct (drop_prefix d q) as [r|] eqn:Hd.
  - apply drop_prefix_spec in Hd. subst q.
    destruct r as [|m [|m' r]].
    + split; [done|]. intros H%app_inv_head. done.
    + split; [by intros [= ->]|]. intros H%app_inv_head. by injection H as ->.
    + split; [done|]. intros H%app_inv_head. done.
  - split; [done|]. intros ->.
    assert (H : drop_prefix d (d ++ [n]) = Some [n]) by by apply drop_prefix_spec.
    congruence.
Qed.

Lemma elem_of_listdir_names fs d n :
  n ∈ listdir_names fs d <-> is_Some (nodes fs !! (d ++ [n])).
Proof.
  unfold listdir_names. rewrite list_elem_of_omap. split.
  - intros (q & Hq & Hc). apply child_of_spec in Hc. subst q.
    apply list_elem_of_fmap in Hq as ([q v] & Heq & Hin). simpl in Heq. subst q.
    apply elem_of_map_to_list in Hin. eauto.
  - intros [v Hv]. exists (d ++ [n]). split; [|by apply child_of_spec].
    apply list_elem_of_fmap. exists (d ++ [n], v). split; [done|].
    by apply elem_of_map_to_list.
Qed.



Lemma is_dir_spec fs d :
  is_dir fs d = true <-> check_dirs fs [] d = None /\ look fs d = Some Dir.
Proof.
  unfold is_dir, stat. destruct (check_dirs fs [] d); [split; [done|by intros []]|].
  destruct (look fs d) as [[]|]; split; try done; by intros [].
Qed.



Lemma locate_app fs anch ns :
  locate fs (mkPath anch ns) = locate fs (mkPath anch []) ++ ns.
Proof. unfold locate; simpl. destruct anch; simpl; [done | by rewrite app_nil_r]. Qed.

Lemma locate_cwd fs fs' p : cwd fs' = cwd fs -> locate fs' p = locate fs p.
Proof. unfold locate. by intros ->. Qed.

Lemma check_dirs_app fs pre r1 r2 :
  check_dirs fs pre (r1 ++ r2) =
  match check_dirs fs pre r1 with
  | Some e => Some e
  | None => check_dirs fs (pre ++ r1) r2
  end.
Proof.
  revert pre. induction r1 as [|x r1 IH]; intros pre; simpl.
  - by rewrite app_nil_r.
  - destruct r2 as [|y r2].
    + rewrite app_nil_r. simpl.
      destruct (look fs pre) as [[]|]; try done.
      by destruct (check_dirs fs (pre ++ [x]) r1).
    + destruct (look fs pre) as [[]|]; try done.
      rewrite IH. by rewrite <- app_assoc.
Qed.


Lemma check_dirs_raises fs pre rest e :
  check_dirs fs pre rest = Some e ->
  e = FileNotFoundError \/ e = NotADirectoryError.
Proof.
  revert pre. induction rest as [|c rest IH]; intros pre; simpl; [done|].
  destruct (look fs pre) as [[d|]|]; [| apply IH |]; intros [= <-]; auto.
Qed.


Lemma check_dirs_ext fs fs' pre rest :
  (forall r, length r < length (pre ++ rest) -> look fs' r = look fs r) ->
  check_dirs fs' pre rest = check_dirs fs pre rest.
Proof.
  revert pre. induction rest as [|c rest IH]; intros pre H; simpl; [done|].
  rewrite H by (rewrite length_app; simpl; lia).
  destruct (look fs pre) as [[]|]; try done.
  apply IH. intros r Hr. apply H. by rewrite <- app_assoc in Hr.
Qed.

Lemma look_nodes fs q : q <> [] -> look fs q = nodes fs !! q.
Proof. by destruct q. Qed.

Lemma look_insert_ne fs q r v :
  r <> q -> look (with_nodes (insert q v) fs) r = look fs r.
Proof.
  intros Hne. destruct r as [|x r]; [done|]. simpl.
  by apply lookup_insert_ne.
Qed.

Lemma is_dir_prefix fs a b : is_dir fs (a ++ b) = true -> is_dir fs a = true.
Proof.
  destruct b as [|c b]; [by rewrite app_nil_r|].
  intros [Hc _]%is_dir_spec. apply is_dir_spec.
  rewrite check_dirs_app in Hc. destruct (check_dirs fs [] a); [done|].
  split; [done|]. simpl in Hc. by destruct (look fs a) as [[]|].
Qed.

Lemma os_mkdir_returns q fs fs' :
  os_mkdir q fs = (Return tt, fs') ->
  fs' = with_nodes (insert q Dir) fs /\ nodes fs !! q = None /\
  is_dir fs' q = true.
Proof.
  unfold os_mkdir. destruct (check_dirs fs [] q) eqn:Hc; [done|].
  destruct (look fs q) eqn:Hl; [done|]. intros [= <-].
  assert (Hq : q <> []) by (intros ->; done).
  split; [done|]. split; [by rewrite <- look_nodes|].
  apply is_dir_spec. split.
  - rewrite <- Hc. apply check_dirs_ext. intros r Hr.
    apply look_insert_ne. intros ->. simpl in Hr. lia.
  - rewrite look_nodes by done. simpl. apply lookup_insert_eq.
Qed.

Lemma os_mkdir_raises q fs e fs' :
  os_mkdir q fs = (Raise e, fs') ->
  fs' = fs /\
  ((e = FileNotFoundError /\ check_dirs fs [] q = Some FileNotFoundError) \/
   (e = NotADirectoryError /\ check_dirs fs [] q = Some NotADirectoryError) \/
   (e = FileExistsError /\ check_dirs fs [] q = None /\ is_Some (look fs q))).
Proof.
  unfold os_mkdir. destruct (check_dirs fs [] q) as [e'|] eqn:Hc.
  - intros [= <- <-]. split; [done|].
    destruct (check_dirs_raises _ _ _ _ Hc) as [-> | ->]; auto.
  - destruct (look fs q) eqn:Hl; [|done]. intros [= <- <-]. eauto 10.
Qed.

Lemma grown_refl fs : grown_by_dirs fs fs.
Proof. repeat split. intros r. destruct (nodes fs !! r); auto. Qed.

Lemma grown_trans fs1 fs2 fs3 :
  grown_by_dirs fs1 fs2 -> grown_by_dirs fs2 fs3 -> grown_by_dirs fs1 fs3.
Proof.
  intros (Hc1 & Hd1 & H1) (Hc2 & Hd2 & H2).
  split; [congruence|]. split; [congruence|]. intros r.
  specialize (H1 r). specialize (H2 r).
  destruct (nodes fs1 !! r).
  - by rewrite H1 in H2.
  - destruct H1 as [H1|H1]; rewrite H1 in H2; auto.
Qed.

Lemma grown_insert fs q :
  nodes fs !! q = None -> grown_by_dirs fs (with_nodes (insert q Dir) fs).
Proof.
  intros Hq. repeat split. intros r. simpl.
  destruct (decide (q = r)) as [->|Hne].
  - rewrite Hq, lookup_insert_eq. auto.
  - rewrite lookup_insert_ne by done. destruct (nodes fs !! r); auto.
Qed.

(** [os.mkdir] on a path object. *)
Lemma os_mkdir_path_returns p fs fs' :
  os_mkdir_path p fs = (Return tt, fs') ->
  grown_by_dirs fs fs' /\ is_dir fs' (locate fs' p) = true.
Proof.
  unfold os_mkdir_path. destruct (names p) eqn:Hn; [done|].
  intros (-> & Hq & Hd)%os_mkdir_returns. split; [by apply grown_insert|].
  exact Hd.
Qed.

Lemma os_mkdir_path_existing p fs :
  is_dir fs (locate fs p) = true ->
  os_mkdir_path p fs = (Raise FileExistsError, fs).
Proof.
  intros Hd. unfold os_mkdir_path. destruct (names p); [by rewrite Hd|].
  apply is_dir_spec in Hd as [Hc Hl]. unfold os_mkdir. by rewrite Hc, Hl.
Qed.


Lemma os_mkdir_path_state p fs r fs' :
  os_mkdir_path p fs = (Raise r, fs') -> fs' = fs.
Proof.
  unfold os_mkdir_path. destruct (names p); [by intros [= _ <-]|].
  by intros [-> _]%os_mkdir_raises.
Qed.

Lemma mkdir_leaf_returns e p fs fs' :
  mkdir_leaf e p fs = (Return tt, fs') ->
  grown_by_dirs fs fs' /\ is_dir fs' (locate fs' p) = true.
Proof.
  unfold mkdir_leaf. destruct (os_mkdir_path p fs) as [[[]|x] fs0] eqn:Hm.
  - intros [= <-]. by apply os_mkdir_path_returns.
  - destruct x; try done;
      (destruct (e && is_dir fs (locate fs p)) eqn:Hd; [|done]);
      intros [= <-]; apply andb_true_iff in Hd as [_ Hd];
      (split; [apply grown_refl | done]).
Qed.

Lemma mkdir_parents_unfold e anch rnames fs :
  mkdir_parents e anch rnames fs =
  let p := mkPath anch (rev rnames) in
  match os_mkdir_path p fs with
  | (Return tt, fs') => (Return tt, fs')
  | (Raise FileNotFoundError, _) =>
      match rnames with
      | [] => (Raise FileNotFoundError, fs)
      | _ :: rparent =>
          match mkdir_parents true anch rparent fs with
          | (Raise e, fs1) => (Raise e, fs1)
          | (Return tt, fs1) => mkdir_leaf e p fs1
          end
      end
  | (Raise x, _) =>
      if e && is_dir fs (locate fs p) then (Return tt, fs) else (Raise x, fs)
  end.
Proof. by destruct rnames. Qed.

Lemma mkdir_parents_returns e anch rnames fs fs' :
  mkdir_parents e anch rnames fs = (Return tt, fs') ->
  grown_by_dirs fs fs' /\
  is_dir fs' (locate fs' (mkPath anch (rev rnames))) = true.
Proof.
  revert e fs fs'. induction rnames as [|n rp IH]; intros e fs fs';
    rewrite mkdir_parents_unfold; cbv zeta;
    destruct (os_mkdir_path _ fs) as [[[]|x] fs0] eqn:Hm.
  - intros [= <-]. by apply os_mkdir_path_returns.
  - destruct x; try done;
      (destruct (e && is_dir fs _) eqn:Hd; [|done]);
      intros [= <-]; apply andb_true_iff in Hd as [_ Hd];
      (split; [apply grown_refl | done]).
  - intros [= <-]. by apply os_mkdir_path_returns.
  - destruct x;
      try (destruct (e && is_dir fs _) eqn:Hd; [|done];
           intros [= <-]; apply andb_true_iff in Hd as [_ Hd];
           split; [apply grown_refl | done]).
    destruct (mkdir_parents true anch rp fs) as [[[]|y] fs1] eqn:Hp; [|done].
    apply IH in Hp as [Hg1 _].
    intros [Hg2 Hd]%mkdir_leaf_returns. split; [|done].
    eapply grown_trans; eauto.
Qed.

Lemma mkdir_parents_existing anch rnames fs :
  is_dir fs (locate fs (mkPath anch (rev rnames))) = true ->
  mkdir_parents true anch rnames fs = (Return tt, fs).
Proof.
  intros Hd. rewrite mkdir_parents_unfold. cbv zeta.
  rewrite os_mkdir_path_existing by done. by rewrite Hd.
Qed.


Lemma stat_raises fs p e :
  stat fs p = Raise e -> e = FileNotFoundError \/ e = NotADirectoryError.
Proof.
  unfold stat. destruct (check_dirs fs [] p) eqn:Hc.
  - intros [= <-]. eauto using check_dirs_raises.
  - destruct (look fs p); [done|]. intros [= <-]. auto.
Qed.

End LocalFileSystem.

(** ** The local branch of the methods *)

Section LocalBranch.
Context `{E : Env}.

Lemma delete_local file if_exists st :
  is_s3_path file = false ->
  result (FileOps.delete file if_exists st) =
  match stat (local st) (locate (local st) (Path file)) with
  | Return (File _) => Return None
  | Return Dir => Raise IsADirectoryError
  | Raise e => if is_FileNotFoundError e && if_exists then Return None else Raise e
  end.
Proof.
  intros Hl. run_methods. unfold Path_unlink.
  destruct (stat (local st) (locate (local st) (Path file))) as [[d|]|e]; simpl; try done.
  destruct e, if_exists; done.
Qed.

Lemma exists_local file st :
  is_s3_path file = false ->
  result (FileOps.exists_ file st) =
  Return (path_exists (local st) (locate (local st) (Path file))).
Proof. intros Hl. by run_methods. Qed.

Lemma file_size_local file st :
  is_s3_path file = false ->
  result (FileOps.file_size file st) = os_path_getsize file (local st).
Proof. intros Hl. by run_methods. Qed.

Lemma create_local x st :
  is_s3_path x = false ->
  result (FileOps.create x st) = fst (Path_mkdir true true (Path x) (local st)) /\
  post (FileOps.create x st) =
    with_world (snd (Path_mkdir true true (Path x) (local st)), store st) (warmed st).
Proof.
  intros Hl. run_methods.
  by destruct (Path_mkdir true true (Path x) (local st)).
Qed.

Lemma Path_mkdir_returns p fs fs' :
  Path_mkdir true true p fs = (Return tt, fs') ->
  grown_by_dirs fs fs' /\ is_dir fs' (locate fs' p) = true /\
  Path_mkdir true true p fs' = (Return tt, fs').
Proof.
  unfold Path_mkdir. intros H.
  destruct (mkdir_parents_returns _ _ _ _ _ H) as [Hg Hd].
  rewrite rev_involutive in Hd.
  assert (Hp : mkPath (anchored p) (names p) = p) by by destruct p.
  split; [done|]. split; [by rewrite <- Hp|].
  apply mkdir_parents_existing. by rewrite rev_involutive.
Qed.


Lemma create_local_dirs x st :
  let p := Path x in
  let base := locate (local st) (mkPath (anchored p) []) in
  is_s3_path x = false ->
  returns (FileOps.create x st) ->
  grown_by_dirs (local st) (local (post (FileOps.create x st))) /\
  forall r, r `prefix_of` names p ->
            is_dir (local (post (FileOps.create x st))) (base ++ r) = true.
Proof.
  cbv zeta. intros Hl Hr. unfold returns in Hr.
  destruct (create_local x st Hl) as [Hres Hpost].
  rewrite Hres in Hr. rewrite Hpost.
  destruct (Path_mkdir true true (Path x) (local st)) as [[[]|e] fs'] eqn:Hm;
    simpl in Hr; [|done].
  apply Path_mkdir_returns in Hm as (Hg & Hd & _).
  cbn [fst snd local with_world]. split; [done|].
  intros r [k Hk]. destruct Hg as (Hcwd & _).
  rewrite (locate_cwd _ _ _ Hcwd) in Hd.
  assert (Hp : Path x = mkPath (anchored (Path x)) (names (Path x))) by by destruct (Path x).
  rewrite Hp, locate_app, Hk, app_assoc in Hd. simpl in Hd.
  by apply is_dir_prefix in Hd.
Qed.



Lemma joinpath_inj p n m : joinpath p [n] = joinpath p [m] -> n = m.
Proof.
  unfold joinpath. intros [= H]. apply app_inv_head in H. by injection H.
Qed.



Lemma create_remote_again x st bucket key w' :
  is_s3_path x = true ->
  bucket_and_partition x = Return (bucket, key) ->
  get_bucket bucket (local st, store st) = (Return tt, w') ->
  get_bucket bucket w' = (Return tt, w') ->
  trace (FileOps.create x st)
  = init_trace st ++
    [OnS3 (the_handle st) (c_is_s3_path x);
     OnS3 (the_handle st) (c_bucket_and_partition x);
     OnS3 (the_handle st) (c_get_bucket bucket)] /\
  result (FileOps.create x st) = Return tt /\
  result (FileOps.create x (post (FileOps.create x st))) = Return tt /\
  post (FileOps.create x (post (FileOps.create x st))) = post (FileOps.create x st).
Proof.
  intros Hx Hb H1 H2. run_methods. rewrite H1. run_methods.
  destruct w' as [fs' b']. cbn [fst snd]. rewrite H2.
  rewrite <- !app_assoc. done.
Qed.


End LocalBranch.

(** ** On the object store of the specification *)

Section OnSpecStore.
Variable schema_of : list Byte.byte -> Outcome (list string).
Let E : Env := SpecS3.env schema_of.
Local Existing Instance E.

Lemma spec_bucket_and_partition x :
  is_s3_path x = true -> exists b k, bucket_and_partition x = Return (b, k).
Proof.
  simpl. intros H. unfold SpecS3.bucket_and_partition. rewrite H.
  destruct (SpecS3.split_first_slash _) as [b k]. eauto.
Qed.

(** With the flag, the store's [delete_file] returns for every remote
    path, so [delete] never raises there. *)
Lemma spec_delete_remote_returns x (st : State) :
  is_s3_path x = true -> returns (FileOps.delete x true st).
Proof.
  intros Hr. unfold returns. run_methods.
  destruct (spec_bucket_and_partition x Hr) as (b & k & Hb).
  simpl in *. unfold SpecS3.delete_file. rewrite Hb.
  destruct (SpecS3.find_object _ b k); done.
Qed.

(** A remote object that is absent gives [NotFoundError], one that is
    there its length. *)
Lemma spec_file_size_remote x (st : State) :
  is_s3_path x = true ->
  (result (FileOps.exists_ x st) = Return false ->
   result (FileOps.file_size x st) = Raise NotFoundError) /\
  (forall b k data, bucket_and_partition x = Return (b, k) ->
   SpecS3.find_object (store st) b k = Some data ->
   result (FileOps.file_size x st) = Return (length data)).
Proof.
  intros Hx. split.
  - run_methods. simpl in *. unfold SpecS3.s3_exists, SpecS3.s3_file_size.
    destruct (spec_bucket_and_partition x Hx) as (b & k & Hb).
    simpl in Hb. rewrite Hb. simpl.
    destruct (SpecS3.find_object _ b k) eqn:Hf; [|done].
    intros [= H].
  - intros b k data Hb Hf. run_methods. simpl in *. unfold SpecS3.s3_file_size.
    rewrite Hb. simpl. by rewrite Hf.
Qed.

Lemma spec_get_bucket_again b (w : LocalFS * SpecS3.Buckets) :
  fst (SpecS3.get_bucket b w) = Return tt /\
  SpecS3.get_bucket b (snd (SpecS3.get_bucket b w))
  = (Return tt, snd (SpecS3.get_bucket b w)).
Proof.
  unfold SpecS3.get_bucket. destruct w as [fs bk]. simpl.
  destruct (bk !! b) eqn:Hb; simpl.
  - by rewrite Hb.
  - by rewrite lookup_insert_eq.
Qed.

(** [get_bucket] is idempotent on this store, hence so is a remote
    [create], which always returns. *)
Lemma spec_create_remote x (st : State) :
  is_s3_path x = true ->
  returns (FileOps.create x st) /\
  result (FileOps.create x (post (FileOps.create x st))) = Return tt /\
  post (FileOps.create x (post (FileOps.create x st))) = post (FileOps.create x st).
Proof.
  intros Hx. destruct (spec_bucket_and_partition x Hx) as (b & k & Hb).
  assert (H : fst (get_bucket b (local st, store st)) = Return tt /\
              get_bucket b (snd (get_bucket b (local st, store st)))
              = (Return tt, snd (get_bucket b (local st, store st))))
    by exact (spec_get_bucket_again b (local st, store st)).
  destruct (get_bucket b (local st, store st)) as [r w'] eqn:Hg.
  cbn [fst snd] in H. destruct H as [-> H2].
  destruct (create_remote_again x st b k w' Hx Hb Hg H2) as (_ & Hr & H3 & H4).
  unfold returns. by rewrite Hr.
Qed.

End OnSpecStore.

(** ** Moving between two remote locations *)

Section MoveBetweenBuckets.
Context `{E : Env}.

(** When both paths are remote, [move] hands [delete_src=True] to
    [transfer_s3_location] and, once that returns, also calls
    [delete_file] on the source, without [if_exists]: the store is asked
    twice to remove the source. *)
Lemma move_between_buckets_requests src dst st :
  is_s3_path src = true -> is_s3_path dst = true ->
  fst (transfer_s3_location src dst true (local st, store st)) = Return tt ->
  List.filter (removes src) (trace (FileOps.move src dst st))
  = [OnS3 (the_handle st) (c_transfer_s3_location src dst true);
     OnS3 (the_handle st) (c_delete_file src false)].
Proof.
  intros Hs Hd Hok. run_methods. rewrite Hok. split_answers;
    unfold init_trace; destruct (s3_cached (self st)); simpl;
    rewrite ?String.eqb_refl; reflexivity.
Qed.

Lemma delete_requests x flag st :
  exists ev, List.filter (removes x) (trace (FileOps.delete x flag st)) = [ev].
Proof.
  run_methods; split_answers; unfold init_trace;
    destruct (s3_cached (self st)); simpl; rewrite ?String.eqb_refl; eauto.
Qed.

(** On the other three routes the source is removed by the one call of
    [delete]. *)
Lemma move_other_routes_requests src dst st :
  is_s3_path src && is_s3_path dst = false ->
  returns (FileOps.move src dst st) ->
  exists ev, List.filter (removes src) (trace (FileOps.move src dst st)) = [ev].
Proof.
  intros Hr. unfold returns, FileOps.move, FileOps.transfer.
  rewrite result_bind, trace_bind, List.filter_app.
  set (step := bind (FileOps.s3_is_s3_path src) _).
  assert (Hstep : List.filter (removes src) (trace (step st)) = []).
  { subst step. unfold FileOps.s3_bucket_and_partition.
    destruct (is_s3_path src) eqn:Hs, (is_s3_path dst) eqn:Hd; try done;
      split_answers; unfold init_trace; destruct (s3_cached (self st));
      reflexivity. }
  rewrite Hstep. destruct (result (step st)); [|done]. intros _. simpl.
  rewrite trace_bind, List.filter_app.
  destruct (delete_requests src false (post (step st))) as [ev ->].
  exists ev. by destruct (result _).
Qed.

End MoveBetweenBuckets.

(** ** Writing and removing files *)

Section Frames.

Lemma check_dirs_prefix_dirs fs pre rest :
  check_dirs fs pre rest = None ->
  forall r c r', rest = r ++ c :: r' -> look fs (pre ++ r) = Some Dir.
Proof.
  revert pre. induction rest as [|x rest IH]; intros pre Hc r c r' Hr.
  - by destruct r.
  - simpl in Hc. destruct (look fs pre) as [[]|] eqn:Hl; try done.
    destruct r as [|y r]; simpl in Hr.
    + by rewrite app_nil_r.
    + injection Hr as <- Hr.
      pose proof (IH _ Hc r c r' Hr) as H. by rewrite <- app_assoc in H.
Qed.

Lemma check_dirs_agree fs fs' pre rest :
  (forall r c r', rest = r ++ c :: r' -> look fs' (pre ++ r) = look fs (pre ++ r)) ->
  check_dirs fs' pre rest = check_dirs fs pre rest.
Proof.
  revert pre. induction rest as [|x rest IH]; intros pre H; simpl; [done|].
  pose proof (H [] x rest eq_refl) as H0. rewrite !app_nil_r in H0. rewrite H0.
  destruct (look fs pre) as [[]|]; try done.
  apply IH. intros r c r' ->. rewrite <- !app_assoc. by apply (H (x :: r) c r').
Qed.

Lemma stat_agree fs fs' p :
  (forall r, r `prefix_of` p -> look fs' r = look fs r) ->
  stat fs' p = stat fs p.
Proof.
  intros H. unfold stat.
  rewrite (check_dirs_agree fs fs').
  - by rewrite (H p).
  - intros r c r' ->. simpl. apply H. by exists (c :: r').
Qed.

Lemma stat_returns_dirs fs p v r :
  stat fs p = Return v -> r `prefix_of` p -> r <> p -> look fs r = Some Dir.
Proof.
  unfold stat. destruct (check_dirs fs [] p) eqn:Hc; [done|]. intros _ [k ->] Hne.
  destruct k as [|c k]; [by rewrite app_nil_r in Hne|].
  exact (check_dirs_prefix_dirs fs [] _ Hc r c k eq_refl).
Qed.

Lemma look_delete_ne fs q r :
  r <> q -> look (with_nodes (base.delete q) fs) r = look fs r.
Proof.
  intros Hne. destruct r as [|x r]; [done|]. simpl. by apply lookup_delete_ne.
Qed.

(** Writing or removing a regular file leaves every other resolvable
    entry as it was. *)
Lemma stat_insert_file fs q d p v :
  stat fs p = Return v -> look fs q <> Some Dir -> q <> p ->
  stat (with_nodes (insert q (File d)) fs) p = Return v.
Proof.
  intros Hs Hq Hne. rewrite <- Hs. apply stat_agree. intros r Hr.
  apply look_insert_ne. intros ->.
  destruct (decide (q = p)) as [|Hqp]; [done|].
  by rewrite (stat_returns_dirs fs p v q Hs Hr Hqp) in Hq.
Qed.

Lemma stat_delete_file fs q d p v :
  stat fs p = Return v -> look fs q = Some (File d) -> q <> p ->
  stat (with_nodes (base.delete q) fs) p = Return v.
Proof.
  intros Hs Hq Hne. rewrite <- Hs. apply stat_agree. intros r Hr.
  apply look_delete_ne. intros ->.
  by rewrite (stat_returns_dirs fs p v q Hs Hr Hne) in Hq.
Qed.

Lemma stat_insert_here fs q d :
  check_dirs fs [] q = None -> q <> [] ->
  stat (with_nodes (insert q (File d)) fs) q = Return (File d).
Proof.
  intros Hc Hq. unfold stat.
  rewrite (check_dirs_agree fs), Hc.
  - rewrite look_nodes by done. simpl. by rewrite lookup_insert_eq.
  - intros r c r' ->. simpl. apply look_insert_ne.
    intros H. apply (f_equal length) in H. rewrite length_app in H. simpl in H. lia.
Qed.

Lemma exists_delete_here fs q :
  q <> [] -> path_exists (with_nodes (base.delete q) fs) q = false.
Proof.
  intros Hq. unfold path_exists, stat.
  destruct (check_dirs _ [] q); [done|].
  rewrite look_nodes by done. simpl. by rewrite lookup_delete_eq.
Qed.

Lemma locate_with_nodes f fs p : locate (with_nodes f fs) p = locate fs p.
Proof. reflexivity. Qed.

Lemma open_rb_returns fs s d :
  open_rb fs s = Return d ->
  s <> "" /\ ends_with_slash s = false /\
  stat fs (locate fs (Path s)) = Return (File d).
Proof.
  unfold open_rb, os_stat. destruct (String.eqb_spec s "") as [->|Hs]; [done|].
  destruct (stat fs (locate fs (Path s))) as [[d'|]|]; try done.
  destruct (ends_with_slash s); [done|]. by intros [= ->].
Qed.

Lemma open_wb_returns s data fs fs' :
  open_wb s data fs = (Return tt, fs') ->
  let q := locate fs (Path s) in
  s <> "" /\ ends_with_slash s = false /\
  fs' = with_nodes (insert q (File data)) fs /\
  check_dirs fs [] q = None /\ look fs q <> Some Dir.
Proof.
  unfold open_wb. destruct (String.eqb_spec s "") as [->|Hs]; [done|].
  cbv zeta. destruct (check_dirs fs [] (locate fs (Path s))); [done|].
  destruct (look fs (locate fs (Path s))) as [[d|]|]; try done;
    (destruct (ends_with_slash s); [done|]); by intros [= <-].
Qed.

Lemma Path_unlink_returns p fs fs' :
  Path_unlink p fs = (Return tt, fs') ->
  exists d, stat fs (locate fs p) = Return (File d) /\
            fs' = with_nodes (base.delete (locate fs p)) fs.
Proof.
  unfold Path_unlink. destruct (stat fs (locate fs p)) as [[d|]|]; try done.
  intros [= <-]. eauto.
Qed.

Lemma stat_file_look fs p d : stat fs p = Return (File d) -> look fs p = Some (File d).
Proof.
  unfold stat. destruct (check_dirs fs [] p); [done|].
  destruct (look fs p); [|done]. by intros [= ->].
Qed.

Lemma stat_file_nonroot fs p d : stat fs p = Return (File d) -> p <> [].
Proof. intros H%stat_file_look ->. done. Qed.

(** [shutil.copy] followed by removing the source: the source is gone
    and the destination is there. *)
Lemma copy_then_unlink src dst fs written fs1 fs2 :
  shutil_copy src dst fs = (Return written, fs1) ->
  Path_unlink (Path src) fs1 = (Return tt, fs2) ->
  Path_exists (Path src) fs2 = false /\ Path_exists (Path dst) fs2 = true.
Proof.
  unfold shutil_copy.
  set (dst' := if os_path_isdir fs dst then _ else dst).
  destruct (samefile fs src dst') eqn:Hsame; [done|].
  destruct (open_rb fs src) as [data|] eqn:Hrb; [|done].
  destruct (open_wb dst' data fs) as [[[]|] fs1'] eqn:Hwb; [|done].
  intros [= <- <-] (d & Hs1 & ->)%Path_unlink_returns.
  apply open_rb_returns in Hrb as (Hsrc & Hslash & Hsa).
  apply open_wb_returns in Hwb as (Hd' & Hslash' & -> & Hc' & Hl').
  unfold Path_exists. rewrite !locate_with_nodes in Hs1.
  rewrite !locate_with_nodes.
  set (qa := locate fs (Path src)) in *.
  set (q' := locate fs (Path dst')) in *.
  set (qb := locate fs (Path dst)) in *.
  assert (Hqa : qa <> []) by by eapply stat_file_nonroot.
  split; [by apply exists_delete_here|].
  assert (Hneq : qa <> q').
  { intros Heq. unfold samefile in Hsame. unfold os_stat in Hsame.
    destruct (String.eqb_spec src "") as [|_]; [done|].
    destruct (String.eqb_spec dst' "") as [|_]; [done|].
    fold qa q' in Hsame. rewrite <- Heq, Hsa, Hslash, Hslash' in Hsame.
    by rewrite bool_decide_eq_true_2 in Hsame. }
  assert (Hq' : q' <> []).
  { intros H. rewrite H in Hl'. done. }
  unfold path_exists.
  destruct (os_path_isdir fs dst) eqn:Hdir.
  - (* the destination is a directory: it stays one *)
    unfold os_path_isdir, os_stat in Hdir.
    destruct (String.eqb_spec dst "") as [|_]; [done|]. fold qb in Hdir.
    destruct (stat fs qb) as [[|]|] eqn:Hsb; try done;
      [by destruct (ends_with_slash dst)|].
    assert (Hb1 : stat (with_nodes (insert q' (File data)) fs) qb = Return Dir).
    { apply stat_insert_file; [done|done|].
      intros ->. unfold stat in Hsb. rewrite Hc' in Hsb.
      destruct (look fs qb) as [[]|]; try done. }
    erewrite stat_delete_file; [done|exact Hb1|by apply stat_file_look in Hs1; exact Hs1|].
    intros ->. rewrite Hb1 in Hs1. done.
  - (* the destination is the file written *)
    subst dst'. fold qb in q'. subst q'.
    assert (Hb1 : stat (with_nodes (insert qb (File data)) fs) qb = Return (File data))
      by by apply stat_insert_here.
    erewrite stat_delete_file; [done|exact Hb1|by apply stat_file_look in Hs1; exact Hs1|done].
Qed.

End Frames.

(** ** The three other routes of a move *)

Section MoveRuns.
Context `{E : Env}.

Lemma exists_remote x st :
  is_s3_path x = true ->
  result (FileOps.exists_ x st) = fst (s3_exists x (local st, store st)).
Proof. intros Hx. by run_methods. Qed.

(** What a [move] that returns has done, route by route. *)
Lemma move_remote_to_local_run src dst st :
  is_s3_path src = true -> is_s3_path dst = false ->
  returns (FileOps.move src dst st) ->
  exists w1 r,
    download_file src dst true (local st, store st) = (Return tt, w1) /\
    delete_file src false w1
    = (Return r, (local (post (FileOps.move src dst st)),
                  store (post (FileOps.move src dst st)))).
Proof.
  intros Hs Hd. unfold returns. run_methods.
  destruct (download_file src dst true (local st, store st))
    as [[[]|] w1] eqn:H1; [|done]. destruct w1 as [fs1 bk1]. run_calls.
  destruct (delete_file src false (fs1, bk1)) as [[r|] [fs2 bk2]] eqn:H2; [|done].
  intros _. run_calls. eauto.
Qed.

Lemma move_local_to_remote_run src dst st :
  is_s3_path src = false -> is_s3_path dst = true ->
  returns (FileOps.move src dst st) ->
  exists bucket key w1,
    bucket_and_partition dst = Return (bucket, key) /\
    client_upload_file src bucket key (local st, store st) = (Return tt, w1) /\
    Path_unlink (Path src) (fst w1)
    = (Return tt, local (post (FileOps.move src dst st))) /\
    store (post (FileOps.move src dst st)) = snd w1.
Proof.
  intros Hs Hd. unfold returns. run_methods.
  destruct (bucket_and_partition dst) as [[bucket key]|] eqn:Hbp; [|done].
  run_calls.
  destruct (client_upload_file src bucket key (local st, store st))
    as [[[]|] w1] eqn:H1; [|done]. run_calls.
  destruct (Path_unlink (Path src) (fst w1)) as [[[]|e] fs2] eqn:H2;
    [|by destruct e]. intros _. run_calls. eauto 10.
Qed.

Lemma move_local_to_local_run src dst st :
  is_s3_path src = false -> is_s3_path dst = false ->
  returns (FileOps.move src dst st) ->
  exists written fs1,
    shutil_copy src dst (local st) = (Return written, fs1) /\
    Path_unlink (Path src) fs1
    = (Return tt, local (post (FileOps.move src dst st))).
Proof.
  intros Hs Hd. unfold returns. run_methods.
  destruct (shutil_copy src dst (local st)) as [[written|] fs1] eqn:H1; [|done].
  run_calls.
  destruct (Path_unlink (Path src) fs1) as [[[]|e] fs2] eqn:H2;
    [|by destruct e]. intros _. run_calls. eauto.
Qed.

End MoveRuns.

Section SpecRoutes.

Lemma find_remove_object bk bucket key :
  SpecS3.find_object (SpecS3.remove_object bucket key bk) bucket key = None.
Proof.
  unfold SpecS3.find_object, SpecS3.remove_object.
  destruct (bk !! bucket) as [objs|] eqn:Hb.
  - rewrite lookup_insert_eq; by rewrite ?lookup_delete_eq.
  - by rewrite Hb.
Qed.

Lemma find_put_object bk bk' bucket key data :
  SpecS3.put_object bucket key data bk = (Return tt, bk') ->
  SpecS3.find_object bk' bucket key = Some data.
Proof.
  unfold SpecS3.put_object, SpecS3.find_object.
  destruct (bk !! bucket) as [objs|]; [|done]. intros [= <-].
  rewrite lookup_insert_eq; by rewrite ?lookup_insert_eq.
Qed.

(** Download, then remove the remote source. *)
Lemma download_then_delete src dst fs bk w1 r w2 :
  SpecS3.download_file src dst true (fs, bk) = (Return tt, w1) ->
  SpecS3.delete_file src false w1 = (Return r, w2) ->
  fst (SpecS3.s3_exists src w2) = Return false /\
  Path_exists (Path dst) (fst w2) = true.
Proof.
  unfold SpecS3.download_file, SpecS3.delete_file, SpecS3.s3_exists.
  destruct (SpecS3.bucket_and_partition src) as [[bucket key]|]; [|done].
  simpl. destruct (SpecS3.find_object bk bucket key) as [data|] eqn:Hf; [|done].
  destruct (open_wb dst data fs) as [[[]|] fs1] eqn:Hwb; [|done].
  intros [= <-]. simpl. rewrite Hf. intros [= _ <-]. simpl.
  rewrite find_remove_object. split.
  - reflexivity.
  - apply open_wb_returns in Hwb as (_ & _ & -> & Hc & Hl).
    unfold Path_exists, path_exists. rewrite locate_with_nodes.
    rewrite stat_insert_here; [done|done|]. intros H. by rewrite H in Hl.
Qed.

(** Upload, then remove the local source. *)
Lemma upload_then_unlink src dst bucket key fs bk w1 fs2 :
  SpecS3.bucket_and_partition dst = Return (bucket, key) ->
  SpecS3.client_upload_file src bucket key (fs, bk) = (Return tt, w1) ->
  Path_unlink (Path src) (fst w1) = (Return tt, fs2) ->
  Path_exists (Path src) fs2 = false /\
  fst (SpecS3.s3_exists dst (fs2, snd w1)) = Return true.
Proof.
  intros Hb. unfold SpecS3.client_upload_file, SpecS3.s3_exists. rewrite Hb. simpl.
  destruct (open_rb fs src) as [data|]; [|done].
  destruct (SpecS3.put_object bucket key data bk) as [[[]|] bk1] eqn:Hput; [|done].
  intros [= <-]. simpl. intros (d & Hs & ->)%Path_unlink_returns.
  rewrite (find_put_object _ _ _ _ _ Hput). split.
  - unfold Path_exists. rewrite locate_with_nodes. apply exists_delete_here.
    by eapply stat_file_nonroot.
  - reflexivity.
Qed.

Variable schema_of : list Byte.byte -> Outcome (list string).
Let E : Env := SpecS3.env schema_of.
Local Existing Instance E.

(** On the store of the specification the three routes other than
    remote to remote do what a move promises: afterwards the source does
    not exist and the destination does. *)
Lemma spec_move_other_routes src dst (st : State) :
  is_s3_path src && is_s3_path dst = false ->
  returns (FileOps.move src dst st) ->
  result (FileOps.exists_ src (post (FileOps.move src dst st))) = Return false /\
  result (FileOps.exists_ dst (post (FileOps.move src dst st))) = Return true.
Proof.
  intros Hroute Hret.
  destruct (is_s3_path src) eqn:Hs, (is_s3_path dst) eqn:Hd;
    [discriminate Hroute| | |].
  - destruct (move_remote_to_local_run src dst st Hs Hd Hret) as (w1 & r & H1 & H2).
    rewrite (exists_remote src), (exists_local dst) by assumption.
    destruct w1 as [fs1 bk1].
    destruct (download_then_delete src dst _ _ _ _ _ H1 H2) as [Ha Hb].
    split; [exact Ha | exact (f_equal Return Hb)].
  - destruct (move_local_to_remote_run src dst st Hs Hd Hret)
      as (bucket & key & w1 & Hbp & H1 & H2 & H3).
    rewrite (exists_remote dst), (exists_local src) by assumption.
    destruct (upload_then_unlink src dst bucket key _ _ _ _ Hbp H1 H2) as [Ha Hb].
    split; [exact (f_equal Return Ha) |].
    rewrite <- Hb. f_equal. f_equal. f_equal. exact H3.
  - destruct (move_local_to_local_run src dst st Hs Hd Hret)
      as (written & fs1 & H1 & H2).
    rewrite !exists_local by assumption.
    destruct (copy_then_unlink src dst _ _ _ _ H1 H2) as [Ha Hb].
    split; [exact (f_equal Return Ha) | exact (f_equal Return Hb)].
Qed.

End SpecRoutes.


(** ** Counterexamples *)




(** ** Witnesses *)








(** The scenario of the specification: only the parquet file directly
    inside the directory. *)
Example list_parquet_files :
  result (FileOps.list_files (E := Sample.env) "/tmp/data" (Some "*.parquet")
            Sample.fresh)
  = Return (inl [joinpath (Path "/tmp/data") ["a.parquet"]]).
Proof. reflexivity. Qed.

(** Three calls on a fresh instance: one construction, one handle. *)
Example session_on_sample :
  let t := snd (session (E := Sample.env)
                  [op_exists "/tmp/f"; op_create "s3://new/x";
                   op_file_size "/tmp/f"] Sample.fresh) in
  inits t = 1 /\
  forallb (fun h => Nat.eqb (obj_id h) 0) (handles t) = true.
Proof. cbv zeta. split; reflexivity. Qed.

(** A pattern of two components is not recursive in [pathlib]'s sense,
    yet it reaches into subdirectories. *)
Example list_nested_pattern :
  result (FileOps.list_files (E := Sample.env) "/tmp/data" (Some "*/*.parquet")
            Sample.fresh)
  = Return (inl [joinpath (Path "/tmp/data") ["sub"; "b.parquet"]]).
Proof. reflexivity. Qed.

(** * Further properties of [core.py] *)

(** ** [move] as [copy] and [delete] *)

Section Composition.
Context `{E : Env}.

Lemma bind_run {A B} (m : M A) (k : A -> M B) st :
  bind m k st =
  match result (m st) with
  | Return a =>
      (result (k a (post (m st))), post (k a (post (m st))),
       trace (m st) ++ trace (k a (post (m st))))
  | Raise e => (Raise e, post (m st), trace (m st))
  end.
Proof.
  unfold bind, result, post, trace.
  destruct (m st) as [[[a|e] st1] t1]; simpl; [|done].
  by destruct (k a st1) as [[r st2] t2].
Qed.

Lemma bind_cong {A B} (m m' : M A) (k k' : A -> M B) st :
  m st = m' st -> (forall a s, k a s = k' a s) -> bind m k st = bind m' k' st.
Proof.
  intros Hm Hk. unfold bind. rewrite Hm.
  destruct (m' st) as [[[a|e] st1] t1]; [|done]. by rewrite Hk.
Qed.

(** X1: when source and destination are not both remote, [move] is
    [copy] followed by [delete] of the source without [if_exists]: the
    two runs have the same result, the same final state and the same
    trace. *)
Theorem move_is_copy_then_delete src dst st :
  is_s3_path src && is_s3_path dst = false ->
  FileOps.move src dst st
  = (let* _ := FileOps.copy src dst in
     let* _ := FileOps.delete src false in
     ret tt) st.
Proof.
  intros Hr. unfold FileOps.move, FileOps.copy, FileOps.transfer.
  match goal with
  | |- bind ?m ?k st = bind (bind ?m' ?k1) ?k2 st =>
      rewrite (bind_assoc m' k1 k2 st); apply (bind_cong m m')
  end.
  - rewrite !bind_run, !s3_is_s3_path_run. unfold result, post, trace; simpl.
    destruct (is_s3_path src); [|done].
    rewrite !bind_run, !s3_is_s3_path_run.
    unfold result, post, trace; simpl.
    by destruct (is_s3_path dst).
  - intros [] s. by rewrite bind_ret_l.
Qed.

(** X2: [copy] never asks for anything to be removed: its trace holds no
    call of [S3Ops.delete_file] or [Path.unlink] and no request to
    remove any path (the flag handed to [transfer_s3_location] is
    [False]). *)
Theorem copy_never_deletes src dst st :
  List.filter is_delete_call (trace (FileOps.copy src dst st)) = [] /\
  forall p, List.filter (removes p) (trace (FileOps.copy src dst st)) = [].
Proof.
  split; [|intros p]; run_methods; split_answers; unfold init_trace;
    destruct (s3_cached (self st)); reflexivity.
Qed.

(** X3: when the call that moves the bytes raises, [transfer] raises
    the same exception and [delete] is not called, whatever
    [delete_src]; when it returns, the trace holds no delete call for
    [delete_src=False] and exactly one for [delete_src=True], on the
    source and without [if_exists]. *)
Theorem failed_transfer_skips_delete src dst delete_src st :
  let run := FileOps.transfer src dst delete_src st in
  (forall e,
     transfer_action src dst delete_src (local st, store st) = Raise e ->
     result run = Raise e /\
     List.filter is_delete_call (trace run) = []) /\
  (transfer_action src dst delete_src (local st, store st) = Return tt ->
   List.filter is_delete_call (trace run)
   = if delete_src
     then [if is_s3_path src
           then OnS3 (the_handle st) (c_delete_file src false)
           else OnLib (c_Path_unlink src)]
     else []).
Proof.
  cbv zeta. unfold transfer_action. cbn [fst snd]. split.
  - intros e. destruct (is_s3_path src) eqn:Hs, (is_s3_path dst) eqn:Hd.
    + intros Ha. run_methods. rewrite Ha. run_calls.
      unfold init_trace; destruct (s3_cached (self st)); done.
    + intros Ha. run_methods. rewrite Ha. run_calls.
      unfold init_trace; destruct (s3_cached (self st)); done.
    + destruct (bucket_and_partition dst) as [[bucket key]|e'] eqn:Hb.
      * intros Ha. run_methods. rewrite Ha. run_calls.
        unfold init_trace; destruct (s3_cached (self st)); done.
      * intros [= ->]. run_methods.
        unfold init_trace; destruct (s3_cached (self st)); done.
    + destruct (shutil_copy src dst (local st)) as [[w|e'] fs1] eqn:Hc; [done|].
      simpl. intros [= ->]. run_methods. rewrite Hc. run_calls.
      unfold init_trace; destruct (s3_cached (self st)); done.
  - destruct (is_s3_path src) eqn:Hs, (is_s3_path dst) eqn:Hd.
    + intros Ha. run_methods. rewrite Ha. run_calls.
      destruct delete_src; run_methods; split_answers;
        unfold init_trace; destruct (s3_cached (self st)); done.
    + intros Ha. run_methods. rewrite Ha. run_calls.
      destruct delete_src; run_methods; split_answers;
        unfold init_trace; destruct (s3_cached (self st)); done.
    + destruct (bucket_and_partition dst) as [[bucket key]|e'] eqn:Hb; [|done].
      intros Ha. run_methods. rewrite Ha. run_calls.
      destruct delete_src; run_methods; split_answers;
        unfold init_trace; destruct (s3_cached (self st)); done.
    + destruct (shutil_copy src dst (local st)) as [[w|e'] fs1] eqn:Hc; [|done].
      intros _. run_methods. rewrite Hc. run_calls.
      destruct delete_src; run_methods; split_answers;
        unfold init_trace; destruct (s3_cached (self st)); done.
Qed.

End Composition.


(** ** Local files: copying, moving, deleting *)

Section LocalFiles.

Lemma shutil_copy_returns src dst fs written fs1 :
  shutil_copy src dst fs = (Return written, fs1) ->
  let qa := locate fs (Path src) in
  let q' := locate fs (Path written) in
  written = (if os_path_isdir fs dst
             then os_path_join dst (os_path_basename src) else dst) /\
  exists data,
    stat fs qa = Return (File data) /\
    src <> "" /\ ends_with_slash src = false /\
    written <> "" /\ ends_with_slash written = false /\
    fs1 = with_nodes (insert q' (File data)) fs /\
    check_dirs fs [] q' = None /\ look fs q' <> Some Dir /\ q' <> [] /\
    qa <> q'.
Proof.
  unfold shutil_copy.
  set (dst' := if os_path_isdir fs dst then _ else dst).
  destruct (samefile fs src dst') eqn:Hsame; [done|].
  destruct (open_rb fs src) as [data|] eqn:Hrb; [|done].
  destruct (open_wb dst' data fs) as [[[]|] fs1'] eqn:Hwb; [|done].
  intros [= <- <-]. cbv zeta. split; [done|]. exists data.
  apply open_rb_returns in Hrb as (Hsrc & Hslash & Hsa).
  apply open_wb_returns in Hwb as (Hd' & Hslash' & -> & Hc' & Hl').
  repeat (split; [done|]). split.
  - intros H. rewrite H in Hl'. done.
  - intros Heq. unfold samefile, os_stat in Hsame.
    destruct (String.eqb_spec src "") as [|_]; [done|].
    destruct (String.eqb_spec dst' "") as [|_]; [done|].
    rewrite <- Heq, Hsa, Hslash, Hslash' in Hsame.
    by rewrite bool_decide_eq_true_2 in Hsame.
Qed.

Lemma getsize_file fs s d :
  s <> "" -> ends_with_slash s = false ->
  stat fs (locate fs (Path s)) = Return (File d) ->
  os_path_getsize s fs = Return (length d).
Proof.
  intros Hs Hslash Hst. unfold os_path_getsize, os_stat.
  destruct (String.eqb_spec s "") as [|_]; [done|]. by rewrite Hst, Hslash.
Qed.


Lemma unlink_gone p fs :
  match fst (Path_unlink p fs) with
  | Return _ => True
  | Raise e => e = FileNotFoundError
  end ->
  stat (snd (Path_unlink p fs)) (locate (snd (Path_unlink p fs)) p)
  = Raise FileNotFoundError.
Proof.
  unfold Path_unlink. set (q := locate fs p).
  destruct (stat fs q) as [[d|]|e] eqn:Hst; cbn [fst snd]; [|done|by intros ->].
  intros _. rewrite locate_with_nodes. fold q.
  pose proof (stat_file_nonroot _ _ _ Hst) as Hq.
  unfold stat in *. rewrite (check_dirs_agree fs).
  - destruct (check_dirs fs [] q); [done|].
    rewrite look_nodes by done. simpl. by rewrite lookup_delete_eq.
  - intros r c r' Hq'. simpl. apply look_delete_ne. intros ->.
    apply (f_equal length) in Hq'. rewrite length_app in Hq'. simpl in Hq'. lia.
Qed.

End LocalFiles.

Section LocalRuns.
Context `{E : Env}.

Lemma transfer_local_run src dst delete_src st :
  is_s3_path src = false -> is_s3_path dst = false ->
  result (FileOps.transfer src dst delete_src st)
  = match fst (shutil_copy src dst (local st)) with
    | Raise e => Raise e
    | Return _ =>
        if delete_src
        then match fst (Path_unlink (Path src) (snd (shutil_copy src dst (local st)))) with
             | Raise e => Raise e
             | Return _ => Return tt
             end
        else Return tt
    end /\
  local (post (FileOps.transfer src dst delete_src st))
  = match fst (shutil_copy src dst (local st)) with
    | Raise e => snd (shutil_copy src dst (local st))
    | Return _ =>
        if delete_src
        then snd (Path_unlink (Path src) (snd (shutil_copy src dst (local st))))
        else snd (shutil_copy src dst (local st))
    end /\
  store (post (FileOps.transfer src dst delete_src st)) = store st.
Proof.
  intros Hs Hd. run_methods.
  destruct (shutil_copy src dst (local st)) as [[written|e] fs1] eqn:Hc;
    run_calls; [|done].
  destruct delete_src; run_methods; [|done].
  destruct (Path_unlink (Path src) fs1) as [[[]|e] fs2] eqn:Hu; run_calls; [done|].
  by destruct e.
Qed.

Lemma delete_local_post file if_exists st :
  is_s3_path file = false ->
  local (post (FileOps.delete file if_exists st))
  = snd (Path_unlink (Path file) (local st)) /\
  store (post (FileOps.delete file if_exists st)) = store st.
Proof.
  intros Hl. run_methods.
  destruct (Path_unlink (Path file) (local st)) as [[[]|e] fs2] eqn:Hu;
    run_calls; [done|].
  destruct e; simpl; try done; destruct if_exists; simpl; run_calls; done.
Qed.

(** X4: a [copy] between local paths that returns has read a regular
    file at the source and left the same bytes at the destination, or at
    the destination joined with the base name of the source when the
    destination is a directory: the source keeps its bytes and its size,
    the written file has that size, every other entry that resolved
    before resolves to the same node, and the store is untouched. *)
Theorem copy_local_content src dst st :
  let fs := local st in
  let after := post (FileOps.copy src dst st) in
  let written :=
    if os_path_isdir fs dst then os_path_join dst (os_path_basename src)
    else dst in
  is_s3_path src = false -> is_s3_path dst = false ->
  returns (FileOps.copy src dst st) ->
  exists data,
    stat fs (locate fs (Path src)) = Return (File data) /\
    stat (local after) (locate fs (Path written)) = Return (File data) /\
    result (FileOps.file_size src after) = Return (length data) /\
    os_path_getsize written (local after) = Return (length data) /\
    (forall q v, q <> locate fs (Path written) -> stat fs q = Return v ->
                 stat (local after) q = Return v) /\
    store after = store st.
Proof.
  cbv zeta. intros Hs Hd Hr. unfold returns, FileOps.copy in *.
  destruct (transfer_local_run src dst false st Hs Hd) as (Hres & Hpost & Hstore).
  rewrite Hres in Hr.
  destruct (shutil_copy src dst (local st)) as [[written|e] fs1] eqn:Hc; [|done].
  cbn [fst snd] in Hpost.
  apply shutil_copy_returns in Hc. cbv zeta in Hc.
  destruct Hc as (Hw & data & Hsa & Hsrc & Hslash & Hw0 & Hwslash & Hfs1 & Hcd
                  & Hlook & Hq' & Hne).
  rewrite <- Hw. exists data. rewrite file_size_local, Hpost, Hfs1 by done.
  split; [done|]. split; [by apply stat_insert_here|].
  split; [|split; [|split; [|done]]].
  - apply getsize_file; [done|done|]. rewrite locate_with_nodes.
    by apply stat_insert_file.
  - apply getsize_file; [done|done|]. rewrite locate_with_nodes.
    by apply stat_insert_here.
  - intros q v Hq Hst. apply stat_insert_file; [done|done|]. intros Heq. by apply Hq.
Qed.


(** X10: after a [delete] of a local path that returned, with or
    without [if_exists], [exists] answers [False], [file_size] raises
    [FileNotFoundError], a second [delete] raises [FileNotFoundError] and
    a second [delete] with [if_exists=True] returns. *)
Theorem delete_then_absent x flag st :
  let after := post (FileOps.delete x flag st) in
  is_s3_path x = false ->
  returns (FileOps.delete x flag st) ->
  result (FileOps.exists_ x after) = Return false /\
  result (FileOps.file_size x after) = Raise FileNotFoundError /\
  result (FileOps.delete x false after) = Raise FileNotFoundError /\
  result (FileOps.delete x true after) = Return None.
Proof.
  cbv zeta. intros Hx Hr. unfold returns in Hr. rewrite delete_local in Hr by done.
  destruct (delete_local_post x flag st Hx) as [Hpost _].
  rewrite exists_local, file_size_local, !delete_local, Hpost by done.
  rewrite unlink_gone.
  - unfold path_exists, os_path_getsize, os_stat. rewrite unlink_gone.
    + by destruct (String.eqb x "").
    + unfold Path_unlink.
      destruct (stat (local st) (locate (local st) (Path x))) as [[d|]|e];
        [done|done|]. by destruct e.
  - unfold Path_unlink.
    destruct (stat (local st) (locate (local st) (Path x))) as [[d|]|e];
      [done|done|]. by destruct e.
Qed.


(** X12: for a local regular file named with a trailing slash,
    [exists] answers [True] and [delete] removes the file, since both go
    through [Path], which drops the slash, while [file_size], which
    hands the raw string to [os.path.getsize], raises
    [NotADirectoryError]. *)
Theorem trailing_slash_on_file x data st :
  let q := locate (local st) (Path x) in
  is_s3_path x = false ->
  ends_with_slash x = true ->
  stat (local st) q = Return (File data) ->
  result (FileOps.exists_ x st) = Return true /\
  result (FileOps.file_size x st) = Raise NotADirectoryError /\
  forall flag,
    result (FileOps.delete x flag st) = Return None /\
    stat (local (post (FileOps.delete x flag st))) q = Raise FileNotFoundError.
Proof.
  cbv zeta. intros Hx Hslash Hst.
  rewrite exists_local, file_size_local by done.
  unfold path_exists, os_path_getsize, os_stat. rewrite Hst, Hslash.
  destruct (String.eqb_spec x "") as [->|_]; [done|].
  split; [done|]. split; [done|]. intros flag.
  rewrite delete_local, Hst by done. split; [done|].
  destruct (delete_local_post x flag st Hx) as [-> _].
  pose proof (unlink_gone (Path x) (local st)) as H.
  unfold Path_unlink in *. rewrite Hst in *. cbn [fst snd] in *.
  rewrite locate_with_nodes in H. by apply H.
Qed.

(** X13: the empty string, when [is_s3_path] classifies it as local,
    means the working directory for the methods that go through [Path]:
    [exists] answers [True], [delete] raises [IsADirectoryError],
    [create] returns and changes nothing, [list_files] lists the working
    directory as relative one-component paths; [file_size], which hands
    the raw string to [os.path.getsize], raises [FileNotFoundError]. *)
Theorem empty_path_is_the_working_directory st :
  let fs := local st in
  is_s3_path "" = false ->
  is_dir fs (cwd fs) = true ->
  result (FileOps.exists_ "" st) = Return true /\
  result (FileOps.file_size "" st) = Raise FileNotFoundError /\
  (forall flag, result (FileOps.delete "" flag st) = Raise IsADirectoryError) /\
  result (FileOps.create "" st) = Return tt /\
  local (post (FileOps.create "" st)) = fs /\
  result (FileOps.list_files "" None st)
  = Return (inl (map (fun n => mkPath false [n]) (listdir_names fs (cwd fs)))).
Proof.
  cbv zeta. intros Hx Hd.
  assert (Hloc : locate (local st) (Path "") = cwd (local st)).
  { unfold locate. simpl. apply app_nil_r. }
  assert (Hloc' : locate (local st) (mkPath false []) = cwd (local st))
    by exact Hloc.
  assert (Hst : stat (local st) (cwd (local st)) = Return Dir).
  { unfold is_dir in Hd. by destruct (stat _ _) as [[]|]. }
  rewrite exists_local, file_size_local by done.
  unfold path_exists. rewrite Hloc, Hst.
  split; [done|]. split; [done|]. split; [|split; [|split]].
  - intros flag. rewrite delete_local by done. by rewrite Hloc, Hst.
  - destruct (create_local "" st Hx) as [-> _].
    unfold Path_mkdir. simpl. unfold os_mkdir_path. simpl.
    by rewrite Hloc', Hd.
  - destruct (create_local "" st Hx) as [_ ->].
    unfold Path_mkdir. simpl. unfold os_mkdir_path. simpl.
    rewrite Hloc', Hd. simpl. autorewrite with run. reflexivity.
  - run_methods. cbn [FileOps.truthy]. run_methods.
    unfold Path_iterdir. by rewrite Hloc, Hst.
Qed.


(** X15: after a [create] of a local path that returned, [exists]
    answers [True], [list_files] returns, and [delete] raises
    [IsADirectoryError] with or without [if_exists]: what [create] made
    cannot be removed through [delete]. *)
Theorem create_makes_a_directory x st :
  let after := post (FileOps.create x st) in
  is_s3_path x = false ->
  returns (FileOps.create x st) ->
  result (FileOps.exists_ x after) = Return true /\
  (forall flag, result (FileOps.delete x flag after) = Raise IsADirectoryError) /\
  returns (FileOps.list_files x None after).
Proof.
  cbv zeta. intros Hx Hr.
  destruct (create_local_dirs x st Hx Hr) as [(Hcwd & _) Hdirs].
  pose proof (Hdirs (names (Path x)) (reflexivity _)) as Hd.
  set (after := post (FileOps.create x st)) in *.
  assert (Hloc : locate (local after) (Path x)
                 = locate (local st) (mkPath (anchored (Path x)) [])
                   ++ names (Path x)).
  { rewrite (locate_cwd _ _ _ Hcwd), <- locate_app. by destruct (Path x). }
  rewrite <- Hloc in Hd. unfold is_dir in Hd.
  destruct (stat (local after) (locate (local after) (Path x))) as [[|]|] eqn:Hst;
    try done.
  rewrite exists_local by done. unfold path_exists. rewrite Hst.
  split; [done|]. split.
  - intros flag. rewrite delete_local by done. by rewrite Hst.
  - unfold returns. run_methods. cbn [FileOps.truthy]. run_methods.
    unfold Path_iterdir. by rewrite Hst.
Qed.

(** X5: a [move] between local paths that returns leaves the bytes of
    the source at the destination (inside it when it is a directory),
    the source is gone, every other entry that resolved before resolves
    to the same node, and the store is untouched. *)
Theorem move_local_content src dst st :
  let fs := local st in
  let after := post (FileOps.move src dst st) in
  let written :=
    if os_path_isdir fs dst then os_path_join dst (os_path_basename src)
    else dst in
  is_s3_path src = false -> is_s3_path dst = false ->
  returns (FileOps.move src dst st) ->
  exists data,
    stat fs (locate fs (Path src)) = Return (File data) /\
    stat (local after) (locate fs (Path written)) = Return (File data) /\
    os_path_getsize written (local after) = Return (length data) /\
    result (FileOps.exists_ src after) = Return false /\
    (forall q v, q <> locate fs (Path src) -> q <> locate fs (Path written) ->
                 stat fs q = Return v -> stat (local after) q = Return v) /\
    store after = store st.
Proof.
  cbv zeta. intros Hs Hd Hr. unfold returns, FileOps.move in *.
  destruct (transfer_local_run src dst true st Hs Hd) as (Hres & Hpost & Hstore).
  rewrite Hres in Hr.
  destruct (shutil_copy src dst (local st)) as [[written|e] fs1] eqn:Hc; [|done].
  cbn [fst snd] in Hpost, Hr.
  apply shutil_copy_returns in Hc. cbv zeta in Hc.
  destruct Hc as (Hw & data & Hsa & Hsrc & Hslash & Hw0 & Hwslash & Hfs1 & Hcd
                  & Hlook & Hq' & Hne).
  rewrite <- Hw. exists data. rewrite exists_local, Hpost by done.
  set (qa := locate (local st) (Path src)) in *.
  set (q' := locate (local st) (Path written)) in *.
  assert (Ha1 : stat fs1 qa = Return (File data)).
  { rewrite Hfs1. by apply stat_insert_file. }
  assert (Hw1 : stat fs1 q' = Return (File data)).
  { rewrite Hfs1. by apply stat_insert_here. }
  assert (Hu : Path_unlink (Path src) fs1 = (Return tt, with_nodes (base.delete qa) fs1)).
  { unfold Path_unlink. replace (locate fs1 (Path src)) with qa by by rewrite Hfs1.
    by rewrite Ha1. }
  rewrite Hu. cbn [snd].
  assert (Hw2 : stat (with_nodes (base.delete qa) fs1) q' = Return (File data)).
  { eapply stat_delete_file; [done|by apply stat_file_look|done]. }
  split; [done|]. split; [done|]. split; [|split; [|split; [|done]]].
  - apply getsize_file; [done|done|].
    replace (locate _ (Path written)) with q' by by rewrite Hfs1. done.
  - f_equal. replace (locate _ (Path src)) with qa by by rewrite Hfs1.
    apply exists_delete_here. by eapply stat_file_nonroot.
  - intros q v Hqa Hqw Hst.
    eapply stat_delete_file; [|by apply stat_file_look|by intros Heq].
    rewrite Hfs1. apply stat_insert_file; [done|done|by intros Heq].
Qed.

(** X7: [copy] and [move] do not copy directories: with a local
    directory as source they raise [IsADirectoryError] (or
    [SameFileError], when the destination resolves to the source) and
    leave the file system unchanged. *)
Theorem transfer_rejects_a_directory src dst delete_src st :
  let run := FileOps.transfer src dst delete_src st in
  is_s3_path src = false -> is_s3_path dst = false ->
  src <> "" ->
  stat (local st) (locate (local st) (Path src)) = Return Dir ->
  (result run = Raise IsADirectoryError \/ result run = Raise SameFileError) /\
  local (post run) = local st.
Proof.
  cbv zeta. intros Hs Hd Hsrc Hst.
  destruct (transfer_local_run src dst delete_src st Hs Hd) as (-> & -> & _).
  unfold shutil_copy. destruct (samefile _ _ _); [auto|].
  unfold open_rb, os_stat. apply String.eqb_neq in Hsrc. rewrite Hsrc, Hst.
  auto.
Qed.

End LocalRuns.


(** ** Round trips on the local file system *)

Section Restoring.

Lemma with_nodes_same f fs : f (nodes fs) = nodes fs -> with_nodes f fs = fs.
Proof. destruct fs as [m c s]. unfold with_nodes. simpl. by intros ->. Qed.

Lemma with_nodes_twice f g fs :
  with_nodes f (with_nodes g fs) = with_nodes (fun m => f (g m)) fs.
Proof. reflexivity. Qed.

(** What [shutil.copy] does when the destination does not exist. *)
Lemma shutil_copy_fresh src dst fs written fs1 :
  path_exists fs (locate fs (Path dst)) = false ->
  shutil_copy src dst fs = (Return written, fs1) ->
  let qa := locate fs (Path src) in
  let qb := locate fs (Path dst) in
  written = dst /\
  exists data,
    stat fs qa = Return (File data) /\
    src <> "" /\ ends_with_slash src = false /\
    dst <> "" /\ ends_with_slash dst = false /\
    fs1 = with_nodes (insert qb (File data)) fs /\
    check_dirs fs [] qb = None /\ nodes fs !! qb = None /\ qb <> [] /\
    qa <> qb.
Proof.
  intros He Hc. cbv zeta.
  assert (Hdir : os_path_isdir fs dst = false).
  { unfold os_path_isdir, os_stat, path_exists in *.
    destruct (String.eqb dst ""); [done|].
    by destruct (stat fs (locate fs (Path dst))). }
  apply shutil_copy_returns in Hc. cbv zeta in Hc. rewrite Hdir in Hc.
  destruct Hc as (-> & data & Hsa & Hsrc & Hslash & Hw0 & Hwslash & Hfs1 & Hcd
                  & Hlook & Hq' & Hne).
  split; [done|]. exists data. repeat (split; [done|]).
  split; [|done]. unfold path_exists, stat in He. rewrite Hcd in He.
  rewrite <- look_nodes by done. by destruct (look fs _).
Qed.

Lemma shutil_copy_to_fresh src dst fs data :
  let qa := locate fs (Path src) in
  let qb := locate fs (Path dst) in
  src <> "" -> ends_with_slash src = false ->
  dst <> "" -> ends_with_slash dst = false ->
  stat fs qa = Return (File data) ->
  check_dirs fs [] qb = None -> nodes fs !! qb = None -> qb <> [] ->
  shutil_copy src dst fs = (Return dst, with_nodes (insert qb (File data)) fs).
Proof.
  cbv zeta. intros Hsrc Hss Hdst Hds Hsa Hcd Hnone Hqb.
  assert (Hsb : stat fs (locate fs (Path dst)) = Raise FileNotFoundError).
  { unfold stat. rewrite Hcd, look_nodes by done. by rewrite Hnone. }
  unfold shutil_copy, os_path_isdir, samefile, open_rb, open_wb, os_stat.
  apply String.eqb_neq in Hsrc, Hdst. rewrite Hsrc, Hdst, Hsb, Hsa, Hss, Hcd.
  rewrite look_nodes by done. rewrite Hnone, Hds. by rewrite Hdst, Hsb.
Qed.

End Restoring.

Section RoundTrips.
Context `{E : Env}.

(** X8: copying a local file to a local destination that did not
    exist and deleting the destination again leaves the local file
    system exactly as it was. *)
Theorem copy_then_delete_restores src dst st :
  let copied := post (FileOps.copy src dst st) in
  is_s3_path src = false -> is_s3_path dst = false ->
  result (FileOps.exists_ dst st) = Return false ->
  returns (FileOps.copy src dst st) ->
  result (FileOps.delete dst false copied) = Return None /\
  local (post (FileOps.delete dst false copied)) = local st.
Proof.
  cbv zeta. intros Hs Hd He Hr. unfold returns, FileOps.copy in *.
  rewrite exists_local in He by done. injection He as He.
  destruct (transfer_local_run src dst false st Hs Hd) as (Hres & Hpost & _).
  rewrite Hres in Hr.
  destruct (shutil_copy src dst (local st)) as [[written|e] fs1] eqn:Hc; [|done].
  cbn [fst snd] in Hpost.
  destruct (shutil_copy_fresh _ _ _ _ _ He Hc)
    as (-> & data & Hsa & Hsrc & Hss & Hdst & Hds & -> & Hcd & Hnone & Hqb & Hne).
  set (qb := locate (local st) (Path dst)) in *.
  destruct (delete_local_post dst false (post (FileOps.transfer src dst false st)) Hd)
    as [-> _].
  rewrite delete_local, Hpost by done. rewrite locate_with_nodes. fold qb.
  unfold Path_unlink. rewrite locate_with_nodes. fold qb.
  rewrite stat_insert_here by done. cbn [snd]. split; [done|].
  rewrite with_nodes_twice. apply with_nodes_same.
  by apply delete_insert_id.
Qed.

(** X9: moving a local file to a local destination that did not exist
    and moving it back succeeds and leaves the local file system exactly
    as it was. *)
Theorem move_there_and_back src dst st :
  let moved := post (FileOps.move src dst st) in
  is_s3_path src = false -> is_s3_path dst = false ->
  result (FileOps.exists_ dst st) = Return false ->
  returns (FileOps.move src dst st) ->
  result (FileOps.move dst src moved) = Return tt /\
  local (post (FileOps.move dst src moved)) = local st.
Proof.
  cbv zeta. intros Hs Hd He Hr. unfold returns, FileOps.move in *.
  rewrite exists_local in He by done. injection He as He.
  destruct (transfer_local_run src dst true st Hs Hd) as (Hres & Hpost & _).
  rewrite Hres in Hr.
  destruct (shutil_copy src dst (local st)) as [[written|e] fs1] eqn:Hc; [|done].
  cbn [fst snd] in Hpost, Hr.
  destruct (shutil_copy_fresh _ _ _ _ _ He Hc)
    as (-> & data & Hsa & Hsrc & Hss & Hdst & Hds & -> & Hcd & Hnone & Hqb & Hne).
  set (fs := local st) in *.
  set (qa := locate fs (Path src)) in *.
  set (qb := locate fs (Path dst)) in *.
  set (fs1 := with_nodes (insert qb (File data)) fs) in *.
  assert (Hqa : qa <> []) by by eapply stat_file_nonroot.
  assert (Ha1 : stat fs1 qa = Return (File data)).
  { apply stat_insert_file; [done| |done]. rewrite look_nodes by done. by rewrite Hnone. }
  assert (Hu : Path_unlink (Path src) fs1 = (Return tt, with_nodes (base.delete qa) fs1)).
  { unfold Path_unlink. change (locate fs1 (Path src)) with qa. by rewrite Ha1. }
  rewrite Hu in Hpost. cbn [snd] in Hpost.
  set (fs2 := with_nodes (base.delete qa) fs1) in *.
  assert (Hb2 : stat fs2 qb = Return (File data)).
  { eapply stat_delete_file; [by apply stat_insert_here|by apply stat_file_look|done]. }
  assert (Hcd2 : check_dirs fs2 [] qa = None).
  { rewrite (check_dirs_agree fs).
    - unfold stat in Hsa. by destruct (check_dirs fs [] qa).
    - intros r c r' Hq. simpl.
      assert (Hr1 : r <> qa).
      { intros ->. apply (f_equal length) in Hq. rewrite length_app in Hq.
        simpl in Hq. lia. }
      assert (Hdir : look fs r = Some Dir).
      { eapply stat_returns_dirs; [exact Hsa| |done]. exists (c :: r'). done. }
      unfold fs2, fs1. rewrite look_delete_ne by done.
      apply look_insert_ne. intros ->.
      rewrite look_nodes in Hdir by done. by rewrite Hnone in Hdir. }
  assert (Hn2 : nodes fs2 !! qa = None) by apply lookup_delete_eq.
  destruct (transfer_local_run dst src true (post (FileOps.transfer src dst true st)) Hd Hs)
    as (Hres2 & Hpost2 & _).
  rewrite Hpost in Hres2, Hpost2.
  rewrite (shutil_copy_to_fresh dst src fs2 data) in Hres2, Hpost2 by done.
  cbn [fst snd] in Hres2, Hpost2.
  change (locate fs2 (Path src)) with qa in *.
  set (fs3 := with_nodes (insert qa (File data)) fs2) in *.
  assert (Hb3 : stat fs3 qb = Return (File data)).
  { apply stat_insert_file; [done| |done]. rewrite look_nodes by done. by rewrite Hn2. }
  assert (Hu3 : Path_unlink (Path dst) fs3 = (Return tt, with_nodes (base.delete qb) fs3)).
  { unfold Path_unlink. change (locate fs3 (Path dst)) with qb. by rewrite Hb3. }
  rewrite Hu3 in Hres2, Hpost2. cbn [fst snd] in Hres2, Hpost2.
  split; [done|]. rewrite Hpost2.
  unfold fs3, fs2, fs1. rewrite !with_nodes_twice. apply with_nodes_same.
  apply map_eq. intros k.
  destruct (decide (k = qb)) as [->|Hkb]; [by rewrite lookup_delete_eq|].
  rewrite lookup_delete_ne by done.
  destruct (decide (k = qa)) as [->|Hka].
  - rewrite lookup_insert_eq. apply stat_file_look in Hsa.
    by rewrite look_nodes in Hsa.
  - rewrite lookup_insert_ne, lookup_delete_ne, lookup_insert_ne by done. done.
Qed.

End RoundTrips.


(** ** Listing *)

Section Globbing.







End Globbing.

Section Listing.
Context `{E : Env}.

Lemma list_files_local_run directory pattern st :
  is_s3_path directory = false ->
  result (FileOps.list_files directory pattern st)
  = match match FileOps.truthy pattern with
          | Some p => Path_glob fnmatch (Path directory) p (local st)
          | None => Path_iterdir (Path directory) (local st)
          end with
    | Return l => Return (inl l)
    | Raise e => Raise e
    end.
Proof.
  intros Hd. run_methods. destruct (FileOps.truthy pattern); run_methods.
  - by destruct (Path_glob _ _ _ _).
  - by destruct (Path_iterdir _ _).
Qed.


(** X17: for a local path that is not an existing directory,
    [list_files] without a pattern raises [FileNotFoundError] or
    [NotADirectoryError], while with a pattern it never raises either of
    them: whenever it returns the list is empty, and it does return for
    every relative one-component pattern. *)
Theorem list_files_not_a_directory directory st :
  let d := locate (local st) (Path directory) in
  is_s3_path directory = false ->
  is_dir (local st) d = false ->
  (exists e, result (FileOps.list_files directory None st) = Raise e /\
             (e = FileNotFoundError \/ e = NotADirectoryError)) /\
  (forall pattern l,
     result (FileOps.list_files directory (Some pattern) st) = Return l ->
     pattern <> "" /\ l = inl []) /\
  (forall pattern comp,
     one_level_pattern pattern comp ->
     result (FileOps.list_files directory (Some pattern) st) = Return (inl [])).
Proof.
  cbv zeta. intros Hd Hdir.
  assert (Hiter : exists e, Path_iterdir (Path directory) (local st) = Raise e /\
                            (e = FileNotFoundError \/ e = NotADirectoryError)).
  { unfold Path_iterdir. unfold is_dir in Hdir.
    destruct (stat (local st) (locate (local st) (Path directory)))
      as [[d|]|e] eqn:Hst; [eauto|done|].
    exists e. split; [done|]. by eapply stat_raises. }
  split; [|split].
  - rewrite list_files_local_run by done. simpl.
    destruct Hiter as (e & -> & He). eauto.
  - intros pattern l. rewrite list_files_local_run by done.
    unfold FileOps.truthy.
    destruct (String.eqb_spec pattern "") as [->|Hne].
    { by destruct Hiter as (e & -> & _). }
    unfold Path_glob. rewrite (proj2 (String.eqb_neq _ _) Hne).
    destruct (starts_with_slash pattern); [done|].
    destruct (names (Path pattern)) as [|c parts]; [done|].
    destruct (make_selector (c :: parts)); [|done].
    rewrite Hdir. by intros [= <-].
  - intros pattern comp (Hrel & Hnames & Hrec).
    rewrite list_files_local_run by done. unfold FileOps.truthy.
    destruct (String.eqb_spec pattern "") as [->|Hne]; [done|].
    unfold Path_glob. rewrite (proj2 (String.eqb_neq _ _) Hne), Hrel, Hnames.
    simpl. unfold make_seg.
    destruct (String.eqb_spec comp "**") as [->|_]; [done|].
    rewrite Hrec, Hdir. by destruct (is_wildcard_pattern comp).
Qed.


End Listing.


(** ** Delegation to the handle and to the readers *)

Section Delegation.
Context `{E : Env}.

Ltac on_handle st :=
  unfold init_trace; destruct (s3_cached (self st)); reflexivity.

(** X20: [parquet_column_names] asks the handle for [arrow_fs]
    exactly when the file is remote and calls [read_schema] once, with
    that file system for a remote file and with [None] for a local one;
    its result is the answer of [read_schema]; when [arrow_fs] raises,
    [read_schema] is not called. *)
Theorem parquet_column_names_filesystem file st :
  let run := FileOps.parquet_column_names file st in
  let h := the_handle st in
  let w := (local st, store st) in
  (is_s3_path file = false ->
   trace run = init_trace st ++
               [OnS3 h (c_is_s3_path file); OnLib (c_read_schema file None)] /\
   result run = fst (read_schema file None w)) /\
  (is_s3_path file = true ->
   match arrow_fs w with
   | (Return a, w1) =>
       trace run = init_trace st ++
                   [OnS3 h (c_is_s3_path file); OnS3 h c_arrow_fs;
                    OnLib (c_read_schema file (Some a))] /\
       result run = fst (read_schema file (Some a) w1)
   | (Raise e, _) =>
       trace run = init_trace st ++
                   [OnS3 h (c_is_s3_path file); OnS3 h c_arrow_fs] /\
       result run = Raise e
   end).
Proof.
  cbv zeta. split; intros Hf.
  - run_methods. rewrite app_nil_r, <- app_assoc. split; [done|].
    reflexivity.
  - run_methods.
    destruct (arrow_fs (local st, store st)) as [[a|e] [fs1 b1]] eqn:Ha;
      run_calls; rewrite ?app_nil_r, <- ?app_assoc; done.
Qed.

(** X21: a local [df_from_csv] or [df_from_parquet] hands on the
    exception of the [polars] reader and otherwise returns the frame
    read, converted by [to_pandas] exactly when [return_as] is the
    string [pandas]; any other value of [return_as] gives the [polars]
    frame. *)
Theorem df_return_as path return_as st :
  let w := (local st, store st) in
  let shape df : PandasFrame + PolarsFrame :=
    if String.eqb return_as "pandas" then inl (to_pandas df) else inr df in
  is_s3_path path = false ->
  (forall header dtypes,
     result (FileOps.df_from_csv path header dtypes return_as st)
     = match fst (pl_read_csv path dtypes (FileOps.is_True header)
                    (if FileOps.is_list_or_tuple header then header else PyNone)
                    w) with
       | Return df => Return (shape df)
       | Raise e => Raise e
       end) /\
  result (FileOps.df_from_parquet path return_as st)
  = match fst (pl_read_parquet path w) with
    | Return df => Return (shape df)
    | Raise e => Raise e
    end /\
  (return_as <> "pandas" ->
   forall df, result (FileOps.df_from_parquet path return_as st) <> Return (inl df)).
Proof.
  cbv zeta. intros Hp.
  assert (Hpq : result (FileOps.df_from_parquet path return_as st)
                = match fst (pl_read_parquet path (local st, store st)) with
                  | Return df =>
                      Return (if String.eqb return_as "pandas"
                              then inl (to_pandas df) else inr df)
                  | Raise e => Raise e
                  end).
  { run_methods.
    destruct (pl_read_parquet path (local st, store st)) as [[df|e] w1];
      run_calls; [|done]. destruct (String.eqb return_as "pandas"); by run_calls. }
  split; [|split; [done|]].
  - intros header dtypes. run_methods.
    destruct (pl_read_csv path dtypes _ _ (local st, store st)) as [[df|e] w1];
      run_calls; [|done]. destruct (String.eqb return_as "pandas"); by run_calls.
  - intros Hne%String.eqb_neq df. rewrite Hpq, Hne.
    by destruct (fst (pl_read_parquet path (local st, store st))).
Qed.

(** X22: for a remote path, [exists], [list_files], [df_from_csv]
    and [df_from_parquet] make, after the classification, exactly one
    call on the handle, with the caller's arguments unchanged (an empty
    pattern stays an empty pattern, [header] is not normalised), make no
    library call, and hand back the answer of that call. *)
Theorem remote_reads_delegate path st :
  let h := the_handle st in
  let w := (local st, store st) in
  let calls c := init_trace st ++ [OnS3 h (c_is_s3_path path); OnS3 h c] in
  is_s3_path path = true ->
  (trace (FileOps.exists_ path st) = calls (c_exists path) /\
   result (FileOps.exists_ path st) = fst (s3_exists path w)) /\
  (forall pattern,
     trace (FileOps.list_files path pattern st)
     = calls (c_list_files path pattern) /\
     result (FileOps.list_files path pattern st)
     = match fst (s3_list_files path pattern w) with
       | Return l => Return (inr l)
       | Raise e => Raise e
       end) /\
  (forall header dtypes return_as,
     trace (FileOps.df_from_csv path header dtypes return_as st)
     = calls (c_df_from_csv path header dtypes return_as) /\
     result (FileOps.df_from_csv path header dtypes return_as st)
     = fst (s3_df_from_csv path header dtypes return_as w)) /\
  (forall return_as,
     trace (FileOps.df_from_parquet path return_as st)
     = calls (c_df_from_parquet path return_as) /\
     result (FileOps.df_from_parquet path return_as st)
     = fst (s3_df_from_parquet path return_as w)).
Proof.
  cbv zeta. intros Hp. split; [|split; [|split]]; intros.
  - run_methods. by rewrite <- app_assoc.
  - run_methods.
    destruct (s3_list_files path pattern (local st, store st)) as [[l|e] w1];
      run_calls; by rewrite ?app_nil_r, <- app_assoc.
  - run_methods. by rewrite <- app_assoc.
  - run_methods. by rewrite <- app_assoc.
Qed.

(** X16: [create] of a remote location uses the bucket of the
    location only: result and world are those of the single call
    [get_bucket] on that bucket, whatever the key; when
    [bucket_and_partition] raises, the exception is handed on, the world
    is unchanged and [get_bucket] is not called.  No library call is made
    in either case. *)
Theorem create_remote_ensures_bucket x st :
  let w := (local st, store st) in
  let run := FileOps.create x st in
  is_s3_path x = true ->
  match bucket_and_partition x with
  | Return (bucket, _) =>
      result run = fst (get_bucket bucket w) /\
      (local (post run), store (post run)) = snd (get_bucket bucket w) /\
      List.filter is_get_bucket (trace run)
      = [OnS3 (the_handle st) (c_get_bucket bucket)]
  | Raise e =>
      result run = Raise e /\
      (local (post run), store (post run)) = w /\
      List.filter is_get_bucket (trace run) = []
  end /\
  List.filter is_lib_call (trace run) = [].
Proof.
  cbv zeta. intros Hx.
  destruct (bucket_and_partition x) as [[bucket key]|e] eqn:Hb.
  - run_methods. destruct (get_bucket bucket (local st, store st)) as [r [fs1 b1]].
    cbn [fst snd]. repeat split; on_handle st.
  - run_methods. repeat split; on_handle st.
Qed.

End Delegation.


(** ** Listings before and after a change *)

Section ListingAfter.
Context `{E : Env}.

Lemma list_directory_run dir st :
  is_s3_path dir = false ->
  is_dir (local st) (locate (local st) (Path dir)) = true ->
  result (FileOps.list_files dir None st)
  = Return (inl (map (fun n => joinpath (Path dir) [n])
                   (listdir_names (local st) (locate (local st) (Path dir))))).
Proof.
  intros Hd Hdir. rewrite list_files_local_run by done. simpl.
  unfold Path_iterdir. unfold is_dir in Hdir.
  by destruct (stat (local st) (locate (local st) (Path dir))) as [[]|].
Qed.


(** X24: after a [delete] of an existing local file directly below
    a local directory, [list_files] of the directory returns what it
    returned before without the deleted path, and nothing else is gone
    or new. *)
Theorem delete_then_listing dir x n flag l st :
  let fs := local st in
  let after := post (FileOps.delete x flag st) in
  is_s3_path dir = false -> is_s3_path x = false ->
  locate fs (Path x) = locate fs (Path dir) ++ [n] ->
  result (FileOps.exists_ x st) = Return true ->
  returns (FileOps.delete x flag st) ->
  result (FileOps.list_files dir None st) = Return (inl l) ->
  exists l',
    result (FileOps.list_files dir None after) = Return (inl l') /\
    forall y, y ∈ l' <-> y ∈ l /\ y <> joinpath (Path dir) [n].
Proof.
  cbv zeta. intros Hd Hx Hloc He Hr.
  rewrite list_files_local_run by done. simpl. unfold Path_iterdir.
  set (d := locate (local st) (Path dir)) in *.
  destruct (stat (local st) d) as [[]|] eqn:Hst; try done.
  intros [= <-].
  unfold returns in Hr. rewrite delete_local in Hr by done.
  rewrite exists_local in He by done. unfold path_exists in He.
  destruct (delete_local_post x flag st Hx) as [Hpost _].
  unfold Path_unlink in Hpost. rewrite Hloc in *.
  destruct (stat (local st) (d ++ [n])) as [[data|]|] eqn:Hsx; try done.
  cbn [snd] in Hpost.
  assert (Hd' : is_dir (local (post (FileOps.delete x flag st)))
                  (locate (local (post (FileOps.delete x flag st))) (Path dir))
                = true).
  { rewrite Hpost, locate_with_nodes. fold d. unfold is_dir.
    rewrite (stat_delete_file _ _ data _ Dir); [done|done| |].
    - by apply stat_file_look.
    - intros H. apply (f_equal length) in H. rewrite length_app in H.
      simpl in H. lia. }
  eexists. split; [by apply list_directory_run|].
  rewrite Hpost, locate_with_nodes. fold d. intros y.
  rewrite !list_elem_of_fmap. split.
  - intros (m & -> & Hm%elem_of_listdir_names). simpl in Hm.
    destruct (decide (m = n)) as [->|Hmn].
    { rewrite lookup_delete_eq in Hm. by destruct Hm. }
    rewrite lookup_delete_ne in Hm by (intros H; by apply app_inv_head in H; injection H).
    split; [|by intros ?%joinpath_inj].
    exists m. split; [done|]. by apply elem_of_listdir_names.
  - intros [(m & -> & Hm%elem_of_listdir_names) Hne].
    exists m. split; [done|]. apply elem_of_listdir_names. simpl.
    rewrite lookup_delete_ne; [done|].
    intros H. apply app_inv_head in H. injection H as ->. done.
Qed.

(** X25: after a [copy] to a local destination directly below a
    local directory (the destination not being a directory itself),
    [list_files] of the directory returns what it returned before
    together with the destination, and nothing else is gone or new. *)
Theorem copy_then_listing dir src dst n l st :
  let fs := local st in
  let after := post (FileOps.copy src dst st) in
  is_s3_path dir = false -> is_s3_path src = false -> is_s3_path dst = false ->
  locate fs (Path dst) = locate fs (Path dir) ++ [n] ->
  os_path_isdir fs dst = false ->
  returns (FileOps.copy src dst st) ->
  result (FileOps.list_files dir None st) = Return (inl l) ->
  exists l',
    result (FileOps.list_files dir None after) = Return (inl l') /\
    forall y, y ∈ l' <-> y ∈ l \/ y = joinpath (Path dir) [n].
Proof.
  cbv zeta. intros Hd Hs Hdst Hloc Hnd Hr.
  rewrite list_files_local_run by done. simpl. unfold Path_iterdir.
  set (d := locate (local st) (Path dir)) in *.
  destruct (stat (local st) d) as [[]|] eqn:Hst; try done.
  intros [= <-].
  unfold returns, FileOps.copy in *.
  destruct (transfer_local_run src dst false st Hs Hdst) as (Hres & Hpost & _).
  rewrite Hres in Hr.
  destruct (shutil_copy src dst (local st)) as [[written|e] fs1] eqn:Hc; [|done].
  cbn [fst snd] in Hpost.
  apply shutil_copy_returns in Hc. cbv zeta in Hc. rewrite Hnd in Hc.
  destruct Hc as (-> & data & Hsa & Hsrc & Hslash & Hw0 & Hwslash & Hfs1 & Hcd
                  & Hlook & Hq' & Hne).
  rewrite Hloc in *. subst fs1.
  assert (Hd' : is_dir (local (post (FileOps.transfer src dst false st)))
                  (locate (local (post (FileOps.transfer src dst false st)))
                     (Path dir)) = true).
  { rewrite Hpost, locate_with_nodes. fold d. unfold is_dir.
    rewrite (stat_insert_file _ _ data _ Dir); [done|done|done|].
    intros H. apply (f_equal length) in H. rewrite length_app in H.
    simpl in H. lia. }
  eexists. split; [by apply list_directory_run|].
  rewrite Hpost, locate_with_nodes. fold d. intros y.
  rewrite !list_elem_of_fmap. split.
  - intros (m & -> & Hm%elem_of_listdir_names). simpl in Hm.
    destruct (decide (m = n)) as [->|Hmn]; [by right|]. left.
    rewrite lookup_insert_ne in Hm by (intros H; by apply app_inv_head in H; injection H).
    exists m. split; [done|]. by apply elem_of_listdir_names.
  - intros [(m & -> & Hm%elem_of_listdir_names) | ->].
    + exists m. split; [done|]. apply elem_of_listdir_names. simpl.
      destruct (decide (m = n)) as [->|Hmn]; [by rewrite lookup_insert_eq|].
      rewrite lookup_insert_ne; [done|].
      intros H. apply app_inv_head in H. by injection H.
    + exists n. split; [done|]. apply elem_of_listdir_names. simpl.
      by rewrite lookup_insert_eq.
Qed.

End ListingAfter.

(** ** Witnesses of the further properties *)

Lemma move_is_copy_then_delete_witness :
  FileOps.move (E := Sample.env) "/tmp/f" "s3://bkt/f" Sample.fresh
  = (let* _ := FileOps.copy "/tmp/f" "s3://bkt/f" in
     let* _ := FileOps.delete "/tmp/f" false in
     ret tt) Sample.fresh.
Proof. apply (move_is_copy_then_delete (E := Sample.env)). reflexivity. Defined.

Lemma failed_transfer_skips_delete_witness :
  let missing := FileOps.move (E := Sample.env) "/tmp/nothing" "/tmp/g" Sample.fresh in
  let moved := FileOps.move (E := Sample.env) "/tmp/f" "/tmp/g" Sample.fresh in
  (result missing = Raise FileNotFoundError /\
   List.filter is_delete_call (trace missing) = []) /\
  List.filter is_delete_call (trace moved) = [OnLib (c_Path_unlink "/tmp/f")].
Proof.
  cbv zeta. split.
  - apply (proj1 (failed_transfer_skips_delete (E := Sample.env)
                    "/tmp/nothing" "/tmp/g" true Sample.fresh)).
    reflexivity.
  - apply (proj2 (failed_transfer_skips_delete (E := Sample.env)
                    "/tmp/f" "/tmp/g" true Sample.fresh)).
    reflexivity.
Defined.

Lemma copy_local_content_witness :
  let after :=
    post (FileOps.copy (E := Sample.env) "/tmp/f" "/tmp/data" Sample.fresh) in
  stat (local after) ["tmp"; "data"; "f"] = Return (File (Sample.bytes "abc")) /\
  result (FileOps.file_size (E := Sample.env) "/tmp/f" after) = Return 3 /\
  stat (local after) ["tmp"; "data"; "notes.txt"]
  = Return (File (Sample.bytes "hi")).
Proof.
  cbv zeta.
  destruct (copy_local_content (E := Sample.env) "/tmp/f" "/tmp/data"
              Sample.fresh eq_refl eq_refl I)
    as (data & H0 & H1 & H2 & _ & Hframe & _).
  assert (Hd : Return (File data) = Return (File (Sample.bytes "abc")))
    by (rewrite <- H0; reflexivity).
  injection Hd as ->.
  split; [exact H1|]. split; [exact H2|].
  apply Hframe; [discriminate | reflexivity].
Defined.


Lemma delete_then_absent_witness :
  let after :=
    post (FileOps.delete (E := Sample.env) "/tmp/f" false Sample.fresh) in
  result (FileOps.exists_ (E := Sample.env) "/tmp/f" after) = Return false /\
  result (FileOps.file_size (E := Sample.env) "/tmp/f" after)
  = Raise FileNotFoundError /\
  result (FileOps.delete (E := Sample.env) "/tmp/f" false after)
  = Raise FileNotFoundError /\
  result (FileOps.delete (E := Sample.env) "/tmp/f" true after) = Return None.
Proof.
  cbv zeta.
  exact (delete_then_absent (E := Sample.env) "/tmp/f" false Sample.fresh
           eq_refl I).
Defined.


Lemma trailing_slash_on_file_witness :
  result (FileOps.exists_ (E := Sample.env) "/tmp/f/" Sample.fresh) = Return true /\
  result (FileOps.file_size (E := Sample.env) "/tmp/f/" Sample.fresh)
  = Raise NotADirectoryError /\
  result (FileOps.delete (E := Sample.env) "/tmp/f/" false Sample.fresh)
  = Return None.
Proof.
  destruct (trailing_slash_on_file (E := Sample.env) "/tmp/f/"
              (Sample.bytes "abc") Sample.fresh eq_refl eq_refl eq_refl)
    as (H1 & H2 & H3).
  split; [exact H1|]. split; [exact H2|]. exact (proj1 (H3 false)).
Defined.

Lemma empty_path_is_the_working_directory_witness :
  result (FileOps.exists_ (E := Sample.env) "" Sample.fresh) = Return true /\
  result (FileOps.file_size (E := Sample.env) "" Sample.fresh)
  = Raise FileNotFoundError /\
  result (FileOps.delete (E := Sample.env) "" true Sample.fresh)
  = Raise IsADirectoryError.
Proof.
  destruct (empty_path_is_the_working_directory (E := Sample.env) Sample.fresh
              eq_refl eq_refl) as (H1 & H2 & H3 & _).
  split; [exact H1|]. split; [exact H2|]. exact (H3 true).
Defined.


Lemma list_files_not_a_directory_witness :
  let list_files d p := result (FileOps.list_files (E := Sample.env) d p Sample.fresh) in
  (exists e, list_files "/tmp/nothing" None = Raise e) /\
  list_files "/tmp/nothing" (Some "*.parquet") = Return (inl []) /\
  list_files "/tmp/f" (Some "*") = Return (inl []).
Proof.
  cbv zeta. split; [|split].
  - destruct (proj1 (list_files_not_a_directory (E := Sample.env) "/tmp/nothing"
                       Sample.fresh eq_refl eq_refl)) as (e & He & _).
    exists e. exact He.
  - apply (proj2 (proj2 (list_files_not_a_directory (E := Sample.env)
                           "/tmp/nothing" Sample.fresh eq_refl eq_refl))
             "*.parquet" "*.parquet").
    split; [reflexivity|]. split; reflexivity.
  - apply (proj2 (proj2 (list_files_not_a_directory (E := Sample.env)
                           "/tmp/f" Sample.fresh eq_refl eq_refl)) "*" "*").
    split; [reflexivity|]. split; reflexivity.
Defined.



Lemma parquet_column_names_filesystem_witness :
  let names_of f :=
    trace (FileOps.parquet_column_names (E := Sample.env) f Sample.fresh) in
  let h := the_handle Sample.fresh in
  names_of "/tmp/data/a.parquet"
  = [S3OpsInit h; OnS3 h (c_is_s3_path "/tmp/data/a.parquet");
     OnLib (c_read_schema "/tmp/data/a.parquet" None)] /\
  names_of "s3://bkt/a.csv"
  = [S3OpsInit h; OnS3 h (c_is_s3_path "s3://bkt/a.csv"); OnS3 h c_arrow_fs;
     OnLib (c_read_schema (E := Sample.env) "s3://bkt/a.csv" (Some tt))].
Proof.
  cbv zeta. split.
  - apply (proj1 (parquet_column_names_filesystem (E := Sample.env)
                    "/tmp/data/a.parquet" Sample.fresh) eq_refl).
  - apply (proj2 (parquet_column_names_filesystem (E := Sample.env)
                    "s3://bkt/a.csv" Sample.fresh) eq_refl).
Defined.

Lemma df_return_as_witness :
  let read r := result (FileOps.df_from_parquet (E := Sample.env) "/tmp/f" r Sample.fresh) in
  read "pandas"
  = Return (inl (SpecS3.ToPandas (SpecS3.FromParquet (Sample.bytes "abc")))) /\
  read "Pandas" = Return (inr (SpecS3.FromParquet (Sample.bytes "abc"))).
Proof.
  cbv zeta. split.
  - rewrite (proj1 (proj2 (df_return_as (E := Sample.env) "/tmp/f" "pandas"
                             Sample.fresh eq_refl))).
    reflexivity.
  - rewrite (proj1 (proj2 (df_return_as (E := Sample.env) "/tmp/f" "Pandas"
                             Sample.fresh eq_refl))).
    reflexivity.
Defined.

Lemma remote_reads_delegate_witness :
  let h := the_handle Sample.fresh in
  trace (FileOps.list_files (E := Sample.env) "s3://bkt/" (Some "") Sample.fresh)
  = [S3OpsInit h; OnS3 h (c_is_s3_path "s3://bkt/");
     OnS3 h (c_list_files "s3://bkt/" (Some ""))] /\
  trace (FileOps.df_from_csv (E := Sample.env) "s3://bkt/a.csv" (PyInt 1) None
           "polars" Sample.fresh)
  = [S3OpsInit h; OnS3 h (c_is_s3_path "s3://bkt/a.csv");
     OnS3 h (c_df_from_csv "s3://bkt/a.csv" (PyInt 1) None "polars")].
Proof.
  cbv zeta. split.
  - apply (proj1 (proj2 (remote_reads_delegate (E := Sample.env) "s3://bkt/"
                           Sample.fresh eq_refl)) (Some "")).
  - apply (proj1 (proj2 (proj2 (remote_reads_delegate (E := Sample.env)
                                  "s3://bkt/a.csv" Sample.fresh eq_refl)))
             (PyInt 1) None "polars").
Defined.

Lemma create_makes_a_directory_witness :
  let after :=
    post (FileOps.create (E := Sample.env) "/tmp/out/x" Sample.fresh) in
  result (FileOps.exists_ (E := Sample.env) "/tmp/out/x" after) = Return true /\
  result (FileOps.delete (E := Sample.env) "/tmp/out/x" true after)
  = Raise IsADirectoryError.
Proof.
  cbv zeta.
  destruct (create_makes_a_directory (E := Sample.env) "/tmp/out/x" Sample.fresh
              eq_refl I) as (H1 & H2 & _).
  split; [exact H1 | exact (H2 true)].
Defined.

Lemma create_remote_ensures_bucket_witness :
  let run := FileOps.create (E := Sample.env) "s3://new/folder/x" Sample.fresh in
  List.filter is_get_bucket (trace run)
  = [OnS3 (the_handle Sample.fresh) (c_get_bucket "new")] /\
  List.filter is_lib_call (trace run) = [].
Proof.
  cbv zeta.
  destruct (create_remote_ensures_bucket (E := Sample.env) "s3://new/folder/x"
              Sample.fresh eq_refl) as [H1 H2].
  split; [exact (proj2 (proj2 H1)) | exact H2].
Defined.

Lemma move_local_content_witness :
  let after :=
    post (FileOps.move (E := Sample.env) "/tmp/f" "/tmp/data" Sample.fresh) in
  stat (local after) ["tmp"; "data"; "f"] = Return (File (Sample.bytes "abc")) /\
  result (FileOps.exists_ (E := Sample.env) "/tmp/f" after) = Return false /\
  stat (local after) ["tmp"; "data"; "notes.txt"]
  = Return (File (Sample.bytes "hi")).
Proof.
  cbv zeta.
  destruct (move_local_content (E := Sample.env) "/tmp/f" "/tmp/data"
              Sample.fresh eq_refl eq_refl I)
    as (data & H0 & H1 & _ & H2 & Hframe & _).
  assert (Hd : Return (File data) = Return (File (Sample.bytes "abc")))
    by (rewrite <- H0; reflexivity).
  injection Hd as ->.
  split; [exact H1|]. split; [exact H2|].
  apply Hframe; [discriminate | discriminate | reflexivity].
Defined.

Lemma transfer_rejects_a_directory_witness :
  let run := FileOps.copy (E := Sample.env) "/tmp/data" "/tmp/g" Sample.fresh in
  (result run = Raise IsADirectoryError \/ result run = Raise SameFileError) /\
  local (post run) = Sample.fs.
Proof.
  cbv zeta.
  apply (transfer_rejects_a_directory (E := Sample.env) "/tmp/data" "/tmp/g"
           false Sample.fresh); first [reflexivity | discriminate].
Defined.

Lemma copy_then_delete_restores_witness :
  let copied :=
    post (FileOps.copy (E := Sample.env) "/tmp/f" "/tmp/g" Sample.fresh) in
  result (FileOps.delete (E := Sample.env) "/tmp/g" false copied) = Return None /\
  local (post (FileOps.delete (E := Sample.env) "/tmp/g" false copied))
  = Sample.fs.
Proof.
  cbv zeta.
  exact (copy_then_delete_restores (E := Sample.env) "/tmp/f" "/tmp/g"
           Sample.fresh eq_refl eq_refl eq_refl I).
Defined.

Lemma move_there_and_back_witness :
  let moved :=
    post (FileOps.move (E := Sample.env) "/tmp/f" "/tmp/data/g" Sample.fresh) in
  result (FileOps.move (E := Sample.env) "/tmp/data/g" "/tmp/f" moved)
  = Return tt /\
  local (post (FileOps.move (E := Sample.env) "/tmp/data/g" "/tmp/f" moved))
  = Sample.fs.
Proof.
  cbv zeta.
  exact (move_there_and_back (E := Sample.env) "/tmp/f" "/tmp/data/g"
           Sample.fresh eq_refl eq_refl eq_refl I).
Defined.


Lemma delete_then_listing_witness :
  let child n := joinpath (Path "/tmp/data") [n] in
  let after :=
    post (FileOps.delete (E := Sample.env) "/tmp/data/notes.txt" false
            Sample.fresh) in
  exists l',
    result (FileOps.list_files (E := Sample.env) "/tmp/data" None after)
    = Return (inl l') /\
    (child "notes.txt" ∉ l') /\ child "sub" ∈ l'.
Proof.
  cbv zeta.
  destruct (delete_then_listing (E := Sample.env) "/tmp/data"
              "/tmp/data/notes.txt" "notes.txt" false
              [joinpath (Path "/tmp/data") ["notes.txt"];
               joinpath (Path "/tmp/data") ["a.parquet"];
               joinpath (Path "/tmp/data") ["sub"]]
              Sample.fresh eq_refl eq_refl eq_refl eq_refl I eq_refl)
    as (l' & Hl' & Hin).
  exists l'. split; [exact Hl'|]. split.
  - intros [_ Hne]%Hin. by apply Hne.
  - apply Hin. split; [|discriminate].
    apply elem_of_cons; right. apply elem_of_cons; right. apply list_elem_of_here.
Defined.

Lemma copy_then_listing_witness :
  let child n := joinpath (Path "/tmp/data") [n] in
  let after :=
    post (FileOps.copy (E := Sample.env) "/tmp/f" "/tmp/data/g" Sample.fresh) in
  exists l',
    result (FileOps.list_files (E := Sample.env) "/tmp/data" None after)
    = Return (inl l') /\
    child "g" ∈ l' /\ child "sub" ∈ l'.
Proof.
  cbv zeta.
  destruct (copy_then_listing (E := Sample.env) "/tmp/data" "/tmp/f"
              "/tmp/data/g" "g"
              [joinpath (Path "/tmp/data") ["notes.txt"];
               joinpath (Path "/tmp/data") ["a.parquet"];
               joinpath (Path "/tmp/data") ["sub"]]
              Sample.fresh eq_refl eq_refl eq_refl eq_refl eq_refl I eq_refl)
    as (l' & Hl' & Hin).
  exists l'. split; [exact Hl'|]. split; apply Hin.
  - by right.
  - left. apply elem_of_cons; right. apply elem_of_cons; right.
    apply list_elem_of_here.
Defined.
